(** * vue-lang-for-laravel: catalogue discovery and the [__] helper

    A shallow embedding of [src/index.ts].  The plugin does three things:
    it turns the files of the [@lang] alias into a catalogue keyed by
    [locale.domain] ([importTranslations]), it hands that catalogue to a
    Lang.js translator ([install]), and it exposes a helper [__] which
    resolves bare keys inside a configurable global domain.

    Strings are sequences of code units; the model uses [string], whose
    characters are the code units below 256.  Objects used as dictionaries
    are [gmap string _]. *)

From Stdlib Require Import Ascii String List Arith Lia.
From stdpp Require Import base option list gmap strings.

Set Default Proof Using "Type".

(** ** The fragment of the host language the plugin relies on *)

Module JS.

(** The values bound by array destructuring of a match result. *)
Inductive value :=
| Undefined
| Str (s : string).

(** [if (v)]: [undefined] and the empty string are falsy. *)
Definition truthy (v : value) : bool :=
  match v with
  | Undefined => false
  | Str s => negb (String.eqb s "")
  end.

(** [`${v}`] *)
Definition template (v : value) : string :=
  match v with
  | Undefined => "undefined"
  | Str s => s
  end.

(** [a === s] where [s] is a string. *)
Definition strict_eq_str (a : value) (s : string) : bool :=
  match a with
  | Undefined => false
  | Str a' => String.eqb a' s
  end.

(** [xs.includes(v)] on an array of strings. *)
Definition includes (xs : list string) (v : value) : bool :=
  existsb (strict_eq_str v) xs.

(** [s.startsWith(p)] *)
Fixpoint startsWith (s p : string) : bool :=
  match p, s with
  | EmptyString, _ => true
  | String a p', String b s' => Ascii.eqb a b && startsWith s' p'
  | String _ _, EmptyString => false
  end.

(** [s.substr(n)] for [0 <= n]. *)
Fixpoint substr (s : string) (n : nat) {struct n} : string :=
  match n, s with
  | 0, _ => s
  | S n', String _ s' => substr s' n'
  | S _, EmptyString => EmptyString
  end.

(** [xs[i]] on an array, [undefined] past the end. *)
Definition nth_value (xs : list value) (i : nat) : value :=
  nth i xs Undefined.

(** A property of an options object.  The object may lack it, or have it
    with the value [undefined] or [null], or with a proper value; a spread
    copies it in the last three cases. *)
Inductive property (A : Type) :=
| NoProperty
| UndefinedValue
| NullValue
| Value (v : A).

Arguments NoProperty {A}.
Arguments UndefinedValue {A}.
Arguments NullValue {A}.
Arguments Value {A} v.

(** Reading [o.p] where a proper value is an object: [Some] when the value
    is truthy.  A missing property reads as [undefined]. *)
Definition defined {A} (p : property A) : option A :=
  match p with
  | Value v => Some v
  | NoProperty | UndefinedValue | NullValue => None
  end.

(** [`${o.p}`], which is also the string [startsWith] makes of [o.p]. *)
Definition template_property (p : property string) : string :=
  match p with
  | Value s => s
  | NullValue => "null"
  | NoProperty | UndefinedValue => "undefined"
  end.

(** How a call ends: with a value or with an exception. *)
Inductive error :=
| TypeError.

Inductive completion (A : Type) :=
| Return (v : A)
| Throw (e : error).

Arguments Return {A} v.
Arguments Throw {A} e.

End JS.

(** ** Regular expressions

    A backtracking matcher in continuation-passing style, for the constructs
    the three patterns of [index.ts] use.  None of the patterns carries a
    flag, so [^] and [$] only match at the two ends of the input, [.]
    excludes line terminators, and [exec] scans from index 0.  No group
    stands under a [+] in them, so captures need no clearing between
    iterations. *)

Module RegExp.

Inductive regex :=
| Chr (c : ascii)                       (* a literal, such as [\.] or [\/] *)
| Dot                                   (* [.] *)
| Cls (ranges : list (ascii * ascii))   (* [[a-z...]] *)
| Bol                                   (* [^] *)
| Eol                                   (* [$] *)
| Seq (a b : regex)
| Alt (a b : regex)
| Plus (a : regex)                      (* greedy [+] *)
| Grp (i : nat) (a : regex).            (* the [i]-th capturing group *)

Record mstate := MState {
  pos : nat;                    (* index of the next code unit *)
  rest : string;                (* input from [pos] on *)
  caps : list (nat * string)    (* captures so far, most recent first *)
}.

Definition continuation := mstate -> option mstate.
Definition matcher := continuation -> mstate -> option mstate.

Definition in_range (c : ascii) (r : ascii * ascii) : bool :=
  (nat_of_ascii (fst r) <=? nat_of_ascii c) && (nat_of_ascii c <=? nat_of_ascii (snd r)).

Definition in_class (ranges : list (ascii * ascii)) (c : ascii) : bool :=
  existsb (in_range c) ranges.

(** LF and CR; U+2028 and U+2029 lie outside the modelled code units. *)
Definition line_terminator (c : ascii) : bool :=
  (nat_of_ascii c =? 10) || (nat_of_ascii c =? 13).

Definition CharacterSetMatcher (p : ascii -> bool) : matcher :=
  fun k st =>
    match rest st with
    | String c t => if p c then k (MState (S (pos st)) t (caps st)) else None
    | EmptyString => None
    end.

(** Iterations after the mandatory ones: greedy, and an iteration that
    consumes nothing is rejected.  The fuel is the length of the remaining
    input, which every accepted iteration shortens. *)
Fixpoint RepeatMatcher (m : matcher) (fuel : nat) : matcher :=
  fun k st =>
    match fuel with
    | 0 => k st
    | S n =>
        match m (fun st' => if pos st' =? pos st then None
                            else RepeatMatcher m n k st') st with
        | Some r => Some r
        | None => k st
        end
    end.

(** The code units between two states of one run. *)
Fixpoint take (n : nat) (s : string) : string :=
  match n, s with
  | S n', String c s' => String c (take n' s')
  | _, _ => EmptyString
  end.

Definition consumed (from to : mstate) : string :=
  take (pos to - pos from) (rest from).

Fixpoint compile (r : regex) : matcher :=
  match r with
  | Chr c => CharacterSetMatcher (Ascii.eqb c)
  | Dot => CharacterSetMatcher (fun c => negb (line_terminator c))
  | Cls ranges => CharacterSetMatcher (in_class ranges)
  | Bol => fun k st => if pos st =? 0 then k st else None
  | Eol => fun k st => match rest st with EmptyString => k st | String _ _ => None end
  | Seq a b => fun k st => compile a (compile b k) st
  | Alt a b => fun k st =>
      match compile a k st with
      | Some r => Some r
      | None => compile b k st
      end
  | Plus a => fun k st =>
      compile a (fun st' => RepeatMatcher (compile a) (String.length (rest st')) k st') st
  | Grp i a => fun k st =>
      compile a (fun st' => k (MState (pos st') (rest st') ((i, consumed st st') :: caps st'))) st
  end.

Fixpoint ngroups (r : regex) : nat :=
  match r with
  | Seq a b | Alt a b => ngroups a + ngroups b
  | Plus a => ngroups a
  | Grp _ a => S (ngroups a)
  | _ => 0
  end.

Definition capture (st : mstate) (i : nat) : JS.value :=
  match List.find (fun c => fst c =? i) (caps st) with
  | Some c => JS.Str (snd c)
  | None => JS.Undefined
  end.

(** The array [exec] returns: the whole match, then one slot per group. *)
Definition match_array (r : regex) (from to : mstate) : list JS.value :=
  JS.Str (consumed from to) :: List.map (capture to) (seq 1 (ngroups r)).

(** [exec] from index [i], where [s] is the input from [i] on. *)
Fixpoint exec_from (r : regex) (i : nat) (s : string) : option (list JS.value) :=
  let st := MState i s [] in
  match compile r Some st with
  | Some st' => Some (match_array r st st')
  | None =>
      match s with
      | EmptyString => None
      | String _ s' => exec_from r (S i) s'
      end
  end.

(** [r.exec(s)]; [null] is [None]. *)
Definition exec (r : regex) (s : string) : option (list JS.value) :=
  exec_from r 0 s.

(** [s.match(r)] used as a condition. *)
Definition matches (r : regex) (s : string) : bool :=
  match exec r s with Some _ => true | None => false end.

(** [[A-Za-z0-9-_]] *)
Definition locale_chars : list (ascii * ascii) :=
  [("A", "Z"); ("a", "z"); ("0", "9"); ("-", "-"); ("_", "_")]%char.

(** [[\w-]] *)
Definition word_or_hyphen : list (ascii * ascii) :=
  [("A", "Z"); ("a", "z"); ("0", "9"); ("_", "_"); ("-", "-")]%char.

(** [(?:php|json)] *)
Definition php_or_json : regex :=
  Alt (Seq (Chr "p") (Seq (Chr "h") (Chr "p")))
      (Seq (Chr "j") (Seq (Chr "s") (Seq (Chr "o") (Chr "n")))).

(** [/\.(php|json)$/], the filter handed to [require.context] *)
Definition lang_file : regex :=
  Seq (Chr ".") (Seq (Grp 1 php_or_json) Eol).

(** [/\.\/([A-Za-z0-9-_]+).(?:php|json)/] *)
Definition root_file : regex :=
  Seq (Chr ".") (Seq (Chr "/")
    (Seq (Grp 1 (Plus (Cls locale_chars)))
      (Seq Dot php_or_json))).

(** [/\.\/([A-Za-z0-9-_]+)\/([A-Za-z0-9-_]+).(?:php|json)/] *)
Definition scoped_file : regex :=
  Seq (Chr ".") (Seq (Chr "/")
    (Seq (Grp 1 (Plus (Cls locale_chars)))
      (Seq (Chr "/")
        (Seq (Grp 2 (Plus (Cls locale_chars)))
          (Seq Dot php_or_json))))).

(** [(?:\.[\w-]+)] *)
Definition dot_name : regex := Seq (Chr ".") (Plus (Cls word_or_hyphen)).

(** [/^[\w-]+(?:\.[\w-]+)+$/] *)
Definition qualified_key : regex :=
  Seq Bol (Seq (Plus (Cls word_or_hyphen)) (Seq (Plus dot_name) Eol)).

End RegExp.

(** ** The plugin *)

(** [Translations]: composite key [locale.domain] to a table of messages. *)
Abbreviation Messages := (gmap string string).
Abbreviation Translations := (gmap string Messages).

(** [IgnoreList].  The type is declared as a [Map], but [shouldIgnore] reads
    it with [Object.entries], that is as a plain object whose own properties
    are the locales; the model is the list of entries [Object.entries]
    yields, each locale with the domains to leave out. *)
Abbreviation IgnoreList := (list (string * list string)).

(** [Partial<Options>], and the object the translator is constructed with:
    every property is optional, and one that is there may hold [undefined]. *)
Record Options := {
  ignore : JS.property IgnoreList;
  globalTranslationsKey : JS.property string;
  messages : JS.property Translations;
  locale : JS.property string;
  fallback : JS.property string
}.

(** What [require.context] evaluates to: a function from file names to
    modules which also lists the file names it knows. *)
Record Context := {
  keys : list string;
  resolve : string -> Messages
}.

Section Plugin.

(** Lang.js, the external translator: its constructor and its [get], whose
    remaining arguments (replacements, locale) are passed through. *)
Variable Translator : Type.
Variable Args : Type.
Variable Translator_new : Options -> Translator.
Variable get : Translator -> string -> Args -> string.

Definition TranslateFunction : Type := string -> Args -> string.

(** Calls that leave the plugin.  The function handed to [Vue.mixin] as
    [__] may throw. *)
Inductive Effect :=
| RequireContext (directory : string) (useSubdirectories : bool) (regExp : RegExp.regex)
| NewTranslator (options : Options)
| VueMixin (lang : Translator) (translate : string -> Args -> JS.completion string).

(** The page and bundle the plugin runs in. *)
Record Host := {
  document_lang : string;            (* document.documentElement.lang *)
  navigator_language : string;       (* navigator.language *)
  lang_paths : list string;          (* every file below the @lang alias *)
  lang_module : string -> Messages;  (* and what each of them exports *)
  effects : list Effect              (* calls made so far, oldest first *)
}.

Definition perform (e : Effect) (h : Host) : Host :=
  {| document_lang := document_lang h;
     navigator_language := navigator_language h;
     lang_paths := lang_paths h;
     lang_module := lang_module h;
     effects := effects h ++ [e] |}.

(** [require.context(directory, useSubdirectories, regExp)] *)
Definition require_context (directory : string) (useSubdirectories : bool)
    (regExp : RegExp.regex) (h : Host) : Context * Host :=
  ({| keys := List.filter (RegExp.matches regExp) (lang_paths h);
      resolve := lang_module h |},
   perform (RequireContext directory useSubdirectories regExp) h).

(** Determines if the given locale and domain combination is ignored. *)
Definition shouldIgnore (ignore : IgnoreList) (locale domain : JS.value) : bool :=
  existsb (fun entry =>
             let '(ignoreLocale, ignoreDomains) := entry in
             JS.strict_eq_str locale ignoreLocale && JS.includes ignoreDomains domain)
          ignore.

(** The body of the [forEach] callback of [importTranslations]. *)
Definition importFile (ignore : option IgnoreList) (globalTranslationsKey : string)
    (files : Context) (catalogue : Translations) (file : string) : Translations :=
  (* Find localization files at the root directory *)
  let found := default [] (RegExp.exec RegExp.root_file file) in
  let isGlobal := JS.nth_value found 0 in
  let rootLocale := JS.nth_value found 1 in
  if JS.truthy isGlobal then
    <[JS.template rootLocale +:+ "." +:+ globalTranslationsKey := resolve files file]> catalogue
  else
    (* Find localization files in a /lang/ directory *)
    let found := default [] (RegExp.exec RegExp.scoped_file file) in
    let locale := JS.nth_value found 1 in
    let domain := JS.nth_value found 2 in
    if match ignore with
       | None => true
       | Some ignore => negb (shouldIgnore ignore locale domain)
       end
    then <[JS.template locale +:+ "." +:+ JS.template domain := resolve files file]> catalogue
    else catalogue.

(** Imports translations from the configured alias.  The function reads
    [ignore] only through [!ignore] and [shouldIgnore], and the global key
    only inside a template literal: the model takes the list when there is
    one, and the string the template makes of the key. *)
Definition importTranslations (ignore : option IgnoreList) (globalTranslationsKey : string)
    (h : Host) : Translations * Host :=
  let '(files, h) := require_context "@lang" true RegExp.lang_file h in
  (foldl (importFile ignore globalTranslationsKey files) ∅ (keys files), h).

(** The global translation function, for a global key that is a string. *)
Definition __ (i18n : Translator) (globalTranslationsKey : string) : TranslateFunction :=
  fun key args =>
    (* Non-global translations *)
    if RegExp.matches RegExp.qualified_key key then get i18n key args
    else
      (* Global translations *)
      let result := get i18n (globalTranslationsKey +:+ "." +:+ key) args in
      if JS.startsWith result globalTranslationsKey
      then JS.substr result (String.length globalTranslationsKey + 1)
      else result.

(** The global translation function as [install] closes it over the
    options object, where the global key is a property: the template literal
    and [startsWith] take the string form of [undefined] or [null], and
    reading their [length] throws. *)
Definition __installed (i18n : Translator) (globalTranslationsKey : JS.property string)
    : string -> Args -> JS.completion string :=
  fun key args =>
    (* Non-global translations *)
    if RegExp.matches RegExp.qualified_key key then JS.Return (get i18n key args)
    else
      (* Global translations *)
      let prefix := JS.template_property globalTranslationsKey in
      let result := get i18n (prefix +:+ "." +:+ key) args in
      if JS.startsWith result prefix
      then match globalTranslationsKey with
           | JS.Value g => JS.Return (JS.substr result (String.length g + 1))
           | JS.NoProperty | JS.UndefinedValue | JS.NullValue => JS.Throw JS.TypeError
           end
      else JS.Return result.

(** [{ p: v, ...o }] at property [p]: the spread wins when [o] has [p],
    whatever the value. *)
Definition spread_over {A} (v : A) (o : JS.property A) : JS.property A :=
  match o with
  | JS.NoProperty => JS.Value v
  | JS.UndefinedValue | JS.NullValue | JS.Value _ => o
  end.

(** [a || b] on strings. *)
Definition or_else (a b : string) : string :=
  if JS.truthy (JS.Str a) then a else b.

(** Adds localization to Vue. *)
Definition install (options : Options) (h : Host) : Host :=
  (* Defines default options *)
  let globalTranslationsKey := spread_over "__global__" (globalTranslationsKey options) in
  (* Creates the Lang.js object; [??] takes its right side for a missing,
     [undefined] or [null] property, and the spread comes last *)
  let '(discovered, h) :=
    match messages options with
    | JS.Value m => (m, h)
    | JS.NoProperty | JS.UndefinedValue | JS.NullValue =>
        importTranslations (JS.defined (ignore options))
          (JS.template_property globalTranslationsKey) h
    end in
  let translatorOptions :=
    {| fallback := spread_over (or_else (document_lang h) (navigator_language h))
                               (fallback options);
       messages := spread_over discovered (messages options);
       ignore := ignore options;
       globalTranslationsKey := globalTranslationsKey;
       locale := locale options |} in
  let i18n := Translator_new translatorOptions in
  let h := perform (NewTranslator translatorOptions) h in
  perform (VueMixin i18n (__installed i18n globalTranslationsKey)) h.

End Plugin.

Arguments Host : clear implicits.
Arguments effects {Translator Args} h.
Arguments lang_paths {Translator Args} h.
Arguments lang_module {Translator Args} h.
Arguments document_lang {Translator Args} h.
Arguments navigator_language {Translator Args} h.
Arguments RequireContext {Translator Args} directory useSubdirectories regExp.
Arguments NewTranslator {Translator Args} options.
Arguments VueMixin {Translator Args} lang translate.
Arguments perform {Translator Args} e h.
Arguments require_context {Translator Args} directory useSubdirectories regExp h.
Arguments importTranslations {Translator Args} ignore globalTranslationsKey h.
Arguments __ {Translator Args} get i18n globalTranslationsKey key args.
Arguments __installed {Translator Args} get i18n globalTranslationsKey key args.
Arguments install {Translator Args} Translator_new get options h.

(** ** Vocabulary of the statements *)

(** "One or more alphanumeric, hyphen or underscore characters", which is
    also "one or more word or hyphen characters". *)
Definition name_char (c : ascii) : bool :=
  let n := nat_of_ascii c in
  ((65 <=? n) && (n <=? 90)) || ((97 <=? n) && (n <=? 122))
  || ((48 <=? n) && (n <=? 57)) || (n =? 95) || (n =? 45).

Fixpoint all_chars (p : ascii -> bool) (s : string) : bool :=
  match s with
  | EmptyString => true
  | String c s' => p c && all_chars p s'
  end.

Definition name (s : string) : bool :=
  negb (String.eqb s "") && all_chars name_char s.

(** A qualified key: two or more names separated by dots. *)
Definition qualified_shape (key : string) : Prop :=
  exists segments : list string,
    2 <= List.length segments /\
    Forall (fun w => name w = true) segments /\
    key = String.concat "." segments.

(** The two supported extensions. *)
Definition extension (ext : string) : Prop := ext = "php" \/ ext = "json".

(** [./X.<ext>] and [./L/D.<ext>] *)
Definition root_path (X ext : string) : string := "./" +:+ X +:+ "." +:+ ext.
Definition scoped_path (L D ext : string) : string :=
  "./" +:+ L +:+ "/" +:+ D +:+ "." +:+ ext.

(** The context [importTranslations] obtains from the bundler, and the
    files it iterates over. *)
Definition lang_context {Translator Args} (h : Host Translator Args) : Context :=
  (require_context "@lang" true RegExp.lang_file h).1.

Definition enumerated {Translator Args} (h : Host Translator Args) : list string :=
  keys (lang_context h).

(** The composite key [importFile] stores a file under, when it stores it. *)
Definition catalogue_key (globalTranslationsKey file : string) : string :=
  let found := default [] (RegExp.exec RegExp.root_file file) in
  if JS.truthy (JS.nth_value found 0)
  then JS.template (JS.nth_value found 1) +:+ "." +:+ globalTranslationsKey
  else
    let found := default [] (RegExp.exec RegExp.scoped_file file) in
    JS.template (JS.nth_value found 1) +:+ "." +:+ JS.template (JS.nth_value found 2).

(** Whether the ignore list makes [importFile] leave a file out. *)
Definition left_out (ignore : option IgnoreList) (file : string) : bool :=
  let found := default [] (RegExp.exec RegExp.root_file file) in
  if JS.truthy (JS.nth_value found 0) then false
  else
    let found := default [] (RegExp.exec RegExp.scoped_file file) in
    match ignore with
    | None => false
    | Some ignore => shouldIgnore ignore (JS.nth_value found 1) (JS.nth_value found 2)
    end.

(** The key a file ends up under, if any. *)
Definition stored_under (ignore : option IgnoreList) (globalTranslationsKey file : string)
    : option string :=
  if left_out ignore file then None else Some (catalogue_key globalTranslationsKey file).

(** The ignore list names the pair [(L, D)]. *)
Definition listed (ignore : option IgnoreList) (L D : string) : Prop :=
  exists entries domains,
    ignore = Some entries /\ In (L, domains) entries /\ In D domains.

(** Every scoped file is in the catalogue under [L.D] with its own content,
    unless the ignore list names [(L, D)], and then [L.D] is no key. *)
Definition scoped_files_filtered {Translator Args} (ignore : option IgnoreList)
    (globalTranslationsKey : string) (h : Host Translator Args) : Prop :=
  forall L D ext,
    name L = true -> name D = true -> extension ext ->
    In (scoped_path L D ext) (enumerated h) ->
    let catalogue := (importTranslations ignore globalTranslationsKey h).1 in
    (listed ignore L D -> catalogue !! (L +:+ "." +:+ D) = None) /\
    (~ listed ignore L D ->
     catalogue !! (L +:+ "." +:+ D) = Some (lang_module h (scoped_path L D ext))).

(** Every root-level file is in the catalogue with its own content. *)
Definition root_files_kept {Translator Args} (ignore : option IgnoreList)
    (globalTranslationsKey : string) (h : Host Translator Args) : Prop :=
  forall X ext,
    name X = true -> extension ext -> In (root_path X ext) (enumerated h) ->
    (importTranslations ignore globalTranslationsKey h).1
      !! (X +:+ "." +:+ globalTranslationsKey)
    = Some (lang_module h (root_path X ext)).

(** The ignore list names the file: it is the scoped file [./L/D.<ext>] of
    a locale [L] and a domain [D] the list pairs.  Read off the list and the
    shape of the path alone. *)
Definition names_file (ignore : option IgnoreList) (file : string) : bool :=
  match ignore with
  | None => false
  | Some entries =>
      existsb (fun entry =>
                 let '(L, domains) := entry in
                 name L &&
                 existsb (fun D =>
                            name D &&
                            existsb (fun ext => String.eqb file (scoped_path L D ext))
                                    ["php"; "json"])
                         domains)
              entries
  end.

(** The same page and bundle without the files the ignore list names. *)
Definition without_named {Translator Args} (ignore : option IgnoreList)
    (h : Host Translator Args) : Host Translator Args :=
  {| document_lang := document_lang h;
     navigator_language := navigator_language h;
     lang_paths := List.filter (fun file => negb (names_file ignore file)) (lang_paths h);
     lang_module := lang_module h;
     effects := effects h |}.

(** The catalogue built with an ignore list is the unfiltered catalogue
    minus the entries of the scoped files the list names: what building
    without a list yields once those files are gone. *)
Definition ignored_entries_removed {Translator Args} (ignore : option IgnoreList)
    (globalTranslationsKey : string) (h : Host Translator Args) : Prop :=
  (importTranslations ignore globalTranslationsKey h).1
  = (importTranslations None globalTranslationsKey (without_named ignore h)).1.


(** The prefix test and cut of [__], as the specification words them:
    an echoed key starts with the global domain name and a dot. *)
Definition strip_global (globalTranslationsKey result : string) : string :=
  if JS.startsWith result (globalTranslationsKey +:+ ".")
  then JS.substr result (String.length (globalTranslationsKey +:+ "."))
  else result.

(** What greedy [[...]+] amounts to on a string: the longest run first. *)
Fixpoint greedy (p : ascii -> bool) (k : RegExp.continuation) (i : nat) (s : string)
    (caps : list (nat * string)) : option RegExp.mstate :=
  match s with
  | EmptyString => None
  | String c t =>
      if p c then
        match greedy p k (S i) t caps with
        | Some r => Some r
        | None => k (RegExp.MState (S i) t caps)
        end
      else None
  end.

(** [.a.b.c] for the segments [a], [b], [c]. *)
Fixpoint dotted (segments : list string) : string :=
  match segments with
  | [] => ""
  | w :: ws => "." +:+ w +:+ dotted ws
  end.

(** ** Vocabulary of the further properties *)

(** [s] begins with one of the two extensions. *)
Definition begins_with_extension (s : string) : bool :=
  JS.startsWith s "php" || JS.startsWith s "json".

(** One of the two extensions begins at the third character of [s] or
    later. *)
Fixpoint extension_inside (s : string) : bool :=
  match s with
  | String _ t =>
      match t with
      | String _ r => begins_with_extension r || extension_inside t
      | EmptyString => false
      end
  | EmptyString => false
  end.

(** What [.(?:php|json)] accepts at the head of a string: any character
    but a line terminator, then an extension. *)
Definition any_then_extension (s : string) : bool :=
  match s with
  | String c t => negb (RegExp.line_terminator c) && begins_with_extension t
  | EmptyString => false
  end.

(** Whether a run of name characters at the head of [s] can be cut so that
    [.(?:php|json)] follows. *)
Fixpoint run_then_extension (s : string) : bool :=
  match s with
  | String c t => name_char c && (run_then_extension t || any_then_extension t)
  | EmptyString => false
  end.

(** No dot occurs in [s]. *)
Definition dotless (s : string) : bool :=
  all_chars (fun c => negb (Ascii.eqb c ".")) s.

(** ** Sample pages and translators *)

(** A page whose [@lang] alias holds [paths], each exporting [modules]. *)
Definition page (paths : list string) (modules : string -> Messages) : Host unit unit :=
  {| document_lang := "fr";
     navigator_language := "en-US";
     lang_paths := paths;
     lang_module := modules;
     effects := [] |}.

(** A module that records which file it came from. *)
Definition module_of (file : string) : Messages := {[ "source" := file ]}.

(** A translator over a flat table which, like Lang.js, answers a miss
    with the key it was asked for. *)
Definition table_get (table : list (string * string)) : unit -> string -> unit -> string :=
  fun _ key _ =>
    match List.find (fun entry => String.eqb (fst entry) key) table with
    | Some entry => snd entry
    | None => key
    end.

(** ** Strings *)

Section StringFacts.

Lemma app_cons c s t : String c s +:+ t = String c (s +:+ t).
Proof. reflexivity. Qed.

Lemma app_empty_l s : "" +:+ s = s.
Proof. reflexivity. Qed.

Lemma app_empty_r s : s +:+ "" = s.
Proof. induction s as [|c s IH]; [done|]. by rewrite app_cons, IH. Qed.

Lemma app_assoc' s t u : (s +:+ t) +:+ u = s +:+ t +:+ u.
Proof. induction s as [|c s IH]; [done|]. by rewrite !app_cons, IH. Qed.

Lemma length_app s t : String.length (s +:+ t) = String.length s + String.length t.
Proof. induction s as [|c s IH]; [done|]. rewrite app_cons. simpl. by rewrite IH. Qed.

Lemma take_length_app s t : RegExp.take (String.length s) (s +:+ t) = s.
Proof. induction s as [|c s IH]; [by destruct t|]. rewrite app_cons. simpl. by rewrite IH. Qed.

Lemma take_length s : RegExp.take (String.length s) s = s.
Proof. rewrite <- (app_empty_r s) at 2. apply take_length_app. Qed.

Lemma all_chars_app p s t :
  all_chars p (s +:+ t) = all_chars p s && all_chars p t.
Proof.
  induction s as [|c s IH]; [done|].
  rewrite app_cons. simpl. rewrite IH. by rewrite andb_assoc.
Qed.


Lemma substr_app s t : JS.substr (s +:+ t) (String.length s) = t.
Proof. induction s as [|c s IH]; [by destruct t|]. by rewrite app_cons. Qed.

Lemma name_nonempty w : name w = true -> w <> "".
Proof. by destruct w. Qed.

Lemma name_cons c w : name (String c w) = name_char c && all_chars name_char w.
Proof. reflexivity. Qed.

Lemma name_all w : name w = true -> all_chars name_char w = true.
Proof. unfold name. by intros [_ ?]%andb_prop. Qed.

End StringFacts.

(** ** The matcher on the patterns of the plugin *)

Section Matching.

Import RegExp.

Lemma in_class_locale c : in_class locale_chars c = name_char c.
Proof.
  by destruct c as [[] [] [] [] [] [] [] []].
Qed.

Lemma in_class_word c : in_class word_or_hyphen c = name_char c.
Proof.
  by destruct c as [[] [] [] [] [] [] [] []].
Qed.

Lemma is_Some_first {A} (x y : option A) :
  is_Some (match x with Some r => Some r | None => y end) <-> is_Some x \/ is_Some y.
Proof.
  destruct x as [r|]; split; eauto.
  - intros [[? H]|H]; [discriminate H|exact H].
Qed.

Lemma RepeatMatcher_S m n k st :
  RepeatMatcher m (S n) k st
  = match m (fun st' => if pos st' =? pos st then None else RepeatMatcher m n k st') st with
    | Some r => Some r
    | None => k st
    end.
Proof. reflexivity. Qed.

(** After the first character of a run, [RepeatMatcher] over a character
    class is [greedy] with the empty continuation as last resort. *)
Lemma repeat_class p k t : forall n i caps,
  String.length t <= n ->
  RepeatMatcher (CharacterSetMatcher p) n k (MState i t caps)
  = match greedy p k i t caps with
    | Some r => Some r
    | None => k (MState i t caps)
    end.
Proof.
  induction t as [|c t IH]; intros n i caps Hn.
  - by destruct n.
  - destruct n as [|n]; [simpl in Hn; lia|].
    rewrite RepeatMatcher_S. unfold CharacterSetMatcher at 1. cbn [rest pos RegExp.caps greedy].
    destruct (p c); [|reflexivity].
    replace (S i =? i) with false by (symmetry; apply Nat.eqb_neq; lia).
    rewrite IH by (simpl in Hn; lia). reflexivity.
Qed.

Lemma plus_class ranges k i s caps :
  compile (Plus (Cls ranges)) k (MState i s caps) = greedy (in_class ranges) k i s caps.
Proof.
  destruct s as [|c t]; [reflexivity|].
  simpl. unfold CharacterSetMatcher at 1. simpl.
  destruct (in_class ranges c); [|reflexivity].
  by rewrite repeat_class.
Qed.

(** Greedy matching stops at the longest run when the continuation
    accepts there. *)
Lemma greedy_longest p k w c t r : forall i caps,
  w <> "" -> all_chars p w = true -> p c = false ->
  k (MState (i + String.length w) (String c t) caps) = Some r ->
  greedy p k i (w +:+ String c t) caps = Some r.
Proof.
  induction w as [|a w IH]; intros i caps Hne Hall Hc Hk; [done|].
  simpl in Hall. apply andb_prop in Hall as [Ha Hall].
  rewrite app_cons. simpl. rewrite Ha.
  destruct w as [|b w].
  - rewrite app_empty_l. simpl. rewrite Hc.
    simpl in Hk. by rewrite Nat.add_1_r in Hk.
  - rewrite (IH (S i) caps); [done|done|done|done|].
    rewrite <- Hk. do 2 f_equal. simpl. lia.
Qed.

(** Which inputs greedy matching accepts. *)
Lemma greedy_some p k s : forall i caps,
  is_Some (greedy p k i s caps) <->
  exists w t, s = w +:+ t /\ w <> "" /\ all_chars p w = true /\
              is_Some (k (MState (i + String.length w) t caps)).
Proof.
  induction s as [|c s IH]; intros i caps; simpl.
  - split; [by intros [? ?]|].
    intros (w & t & Hs & Hne & _). by destruct w.
  - destruct (p c) eqn:Hc.
    + rewrite is_Some_first, IH. split.
      * intros [(w & t & -> & Hne & Hall & Hk)|Hk].
        -- exists (String c w), t. rewrite app_cons. simpl. rewrite Hc, Hall.
           repeat split; [done|]. by rewrite Nat.add_succ_r.
        -- exists (String c ""), s. simpl. rewrite Hc.
           repeat split; [done|]. by rewrite Nat.add_1_r.
      * intros (w & t & Hs & Hne & Hall & Hk).
        destruct w as [|a w]; [done|]. rewrite app_cons in Hs.
        injection Hs as -> ->. simpl in Hall. apply andb_prop in Hall as [_ Hall].
        destruct w as [|b w].
        -- right. rewrite app_empty_l. simpl in Hk. by rewrite Nat.add_1_r in Hk.
        -- left. exists (String b w), t. repeat split; [done|done|].
           simpl in Hk |- *. by rewrite Nat.add_succ_r in Hk.
    + split; [by intros [? ?]|].
      intros (w & t & Hs & Hne & Hall & _).
      destruct w as [|a w]; [done|]. rewrite app_cons in Hs.
      injection Hs as -> ->. simpl in Hall. by rewrite Hc in Hall.
Qed.

Lemma greedy_ext p q k s :
  (forall c, p c = q c) ->
  forall i caps, greedy p k i s caps = greedy q k i s caps.
Proof.
  intros Hpq. induction s as [|c s IH]; intros i caps; [done|].
  cbn [greedy]. by rewrite Hpq, IH.
Qed.

Lemma compile_dot_name k i s caps :
  compile dot_name k (MState i s caps)
  = match s with
    | String c t => if Ascii.eqb "." c then greedy name_char k (S i) t caps else None
    | EmptyString => None
    end.
Proof.
  unfold dot_name. change (compile (Seq ?a ?b) k) with (fun st => compile a (compile b k) st).
  cbv beta. change (compile (Chr ".")) with (CharacterSetMatcher (Ascii.eqb ".")).
  unfold CharacterSetMatcher at 1. cbn [rest pos RegExp.caps].
  destruct s as [|c t]; [done|]. destruct (Ascii.eqb "." c); [|done].
  rewrite plus_class. apply greedy_ext, in_class_word.
Qed.

Lemma dotted_cons w ws : dotted (w :: ws) = String "." (w +:+ dotted ws).
Proof. reflexivity. Qed.

Lemma length_dotted_cons w ws :
  String.length (dotted (w :: ws)) = S (String.length w + String.length (dotted ws)).
Proof. rewrite dotted_cons. simpl. by rewrite length_app. Qed.

Lemma concat_dotted ws : forall w, String.concat "." (w :: ws) = w +:+ dotted ws.
Proof.
  induction ws as [|w' ws IH]; intros w.
  - simpl. by rewrite app_empty_r.
  - change (String.concat "." (w :: w' :: ws))
      with (w +:+ "." +:+ String.concat "." (w' :: ws)).
    by rewrite IH.
Qed.

(** Further [(?:\.[\w-]+)] iterations accept exactly a dotted list of
    names, followed by whatever the continuation accepts. *)
Lemma repeat_dotted k n : forall i s caps,
  String.length s <= n ->
  is_Some (RepeatMatcher (compile dot_name) n k (MState i s caps)) <->
  exists ws t, s = dotted ws +:+ t /\ Forall (fun w => name w = true) ws /\
               is_Some (k (MState (i + String.length (dotted ws)) t caps)).
Proof.
  induction n as [|n IH]; intros i s caps Hn.
  - destruct s; [|simpl in Hn; lia]. simpl. split.
    + intros Hk. exists [], "". simpl. by rewrite Nat.add_0_r.
    + intros (ws & t & Hs & _ & Hk).
      destruct ws; [|discriminate Hs]. change ("" = t) in Hs. subst t.
      simpl in Hk. by rewrite Nat.add_0_r in Hk.
  - rewrite RepeatMatcher_S, is_Some_first, compile_dot_name. cbn [pos]. split.
    + intros [Hiter|Hk].
      * destruct s as [|c s]; [by destruct Hiter|].
        destruct (Ascii.eqb_spec "." c) as [<-|]; [|by destruct Hiter].
        apply greedy_some in Hiter as (w & t & -> & Hne & Hall & Hiter).
        cbn [pos] in Hiter.
        replace (S i + String.length w =? i) with false in Hiter
          by (symmetry; apply Nat.eqb_neq; lia).
        apply IH in Hiter as (ws & t' & -> & Hws & Hk).
        2:{ simpl in Hn. rewrite length_app in Hn. lia. }
        exists (w :: ws), t'.
        split; [by rewrite dotted_cons, app_cons, app_assoc'|]. split.
        -- constructor; [|done]. unfold name. rewrite Hall.
           by destruct w.
        -- rewrite length_dotted_cons.
           by replace (i + S (String.length w + String.length (dotted ws)))
             with (S i + String.length w + String.length (dotted ws)) by lia.
      * exists [], s. simpl. by rewrite Nat.add_0_r.
    + intros (ws & t & -> & Hws & Hk). destruct ws as [|w ws].
      * right. simpl in Hk |- *. by rewrite Nat.add_0_r in Hk.
      * left. rewrite dotted_cons, app_cons, app_assoc'. cbn [Ascii.eqb Bool.eqb].
        apply Forall_cons in Hws as [Hw Hws].
        apply greedy_some. exists w, (dotted ws +:+ t).
        split; [done|]. split; [by apply name_nonempty|].
        split; [by apply name_all|]. cbn [pos].
        replace (S i + String.length w =? i) with false
          by (symmetry; apply Nat.eqb_neq; lia).
        apply IH.
        { rewrite dotted_cons, app_cons, app_assoc' in Hn. simpl in Hn.
          rewrite length_app in Hn. lia. }
        exists ws, t. split; [done|]. split; [done|].
        rewrite length_dotted_cons in Hk.
        by replace (S i + String.length w + String.length (dotted ws))
          with (i + S (String.length w + String.length (dotted ws))) by lia.
Qed.

Lemma compile_seq a b k st : compile (Seq a b) k st = compile a (compile b k) st.
Proof. reflexivity. Qed.

Lemma compile_eol_some st : is_Some (compile Eol Some st) <-> rest st = "".
Proof.
  simpl. destruct (rest st); split; done.
Qed.

(** [(?:\.[\w-]+)+$] accepts the non-empty dotted lists of names. *)
Lemma dotted_tail_run i s caps :
  is_Some (compile (Seq (Plus dot_name) Eol) Some (MState i s caps)) <->
  exists w ws, Forall (fun w => name w = true) (w :: ws) /\ s = dotted (w :: ws).
Proof.
  rewrite compile_seq.
  change (compile (Plus dot_name) ?k ?st)
    with (compile dot_name
            (fun st' => RepeatMatcher (compile dot_name) (String.length (rest st')) k st') st).
  rewrite compile_dot_name. split.
  - destruct s as [|c s]; [by intros [? ?]|].
    destruct (Ascii.eqb_spec "." c) as [<-|]; [|by intros [? ?]].
    intros (w & t & -> & Hne & Hall & Hrun)%greedy_some.
    cbn [rest] in Hrun.
    apply repeat_dotted in Hrun as (ws & t' & -> & Hws & Hend); [|done].
    apply compile_eol_some in Hend. cbn [rest] in Hend. subst t'.
    exists w, ws. split.
    + constructor; [|done]. unfold name. rewrite Hall. by destruct w.
    + by rewrite dotted_cons, app_empty_r.
  - intros (w & ws & Hws & ->). apply Forall_cons in Hws as [Hw Hws].
    rewrite dotted_cons. cbn [Ascii.eqb Bool.eqb].
    apply greedy_some. exists w, (dotted ws).
    split; [done|]. split; [by apply name_nonempty|].
    split; [by apply name_all|]. cbn [rest].
    apply repeat_dotted; [done|].
    exists ws, "". split; [by rewrite app_empty_r|]. split; [done|].
    by apply compile_eol_some.
Qed.

Lemma exec_from_bol r s : forall i, exec_from (Seq Bol r) (S i) s = None.
Proof. induction s as [|c s IH]; intros i; simpl; [done|apply IH]. Qed.

(** The pattern of [__] accepts exactly the qualified keys. *)
Lemma matches_qualified_key key :
  matches qualified_key key = true <-> qualified_shape key.
Proof.
  assert (is_Some (compile qualified_key Some (MState 0 key [])) <-> qualified_shape key)
    as Hrun.
  { unfold qualified_key. rewrite compile_seq.
    change (compile Bol ?k (MState 0 ?s ?c)) with (k (MState 0 s c)).
    rewrite compile_seq, plus_class, (greedy_ext _ name_char) by apply in_class_word.
    rewrite greedy_some. split.
    - intros (w & t & -> & Hne & Hall & Hrun).
      apply dotted_tail_run in Hrun as (w' & ws & Hws & ->).
      exists (w :: w' :: ws). split; [simpl; lia|]. split.
      + constructor; [|done]. unfold name. rewrite Hall. by destruct w.
      + by rewrite concat_dotted.
    - intros (segments & Hlen & Hws & ->).
      destruct segments as [|w [|w' ws]]; [simpl in Hlen; lia..|].
      apply Forall_cons in Hws as [Hw Hws].
      exists w, (dotted (w' :: ws)). rewrite concat_dotted.
      split; [done|]. split; [by apply name_nonempty|].
      split; [by apply name_all|].
      apply dotted_tail_run. by exists w', ws. }
  rewrite <- Hrun. unfold matches, exec.
  destruct key as [|c key]; cbn [exec_from].
  - destruct (compile qualified_key Some _) eqn:E; split; done.
  - destruct (compile qualified_key Some _) eqn:E.
    + split; [by eexists|done].
    + unfold qualified_key at 1. rewrite exec_from_bol.
      split; [done|by intros [? ?]].
Qed.

Lemma name_char_dot : name_char "." = false.
Proof. reflexivity. Qed.

Lemma compile_chr_hit c k i t caps :
  compile (Chr c) k (MState i (String c t) caps) = k (MState (S i) t caps).
Proof. simpl. unfold CharacterSetMatcher. simpl. by rewrite Ascii.eqb_refl. Qed.

Lemma compile_grp n a k st :
  compile (Grp n a) k st
  = compile a (fun st' => k (MState (pos st') (rest st') ((n, consumed st st') :: caps st'))) st.
Proof. reflexivity. Qed.

(** On [./X.<ext>] the root pattern matches the whole path and captures
    all of [X]. *)
Lemma exec_root_path X ext :
  name X = true -> extension ext ->
  exec root_file (root_path X ext) = Some [JS.Str (root_path X ext); JS.Str X].
Proof.
  intros HX Hext. unfold exec, root_path.
  change ("./" +:+ X +:+ "." +:+ ext) with (String "." (String "/" (X +:+ String "." ext))).
  assert (compile root_file Some (MState 0 (String "." (String "/" (X +:+ String "." ext))) [])
          = Some (MState (String.length ext + 3 + String.length X) "" [(1, X)])) as Hrun.
  { unfold root_file.
    rewrite compile_seq, compile_chr_hit, compile_seq, compile_chr_hit, compile_seq.
    rewrite compile_grp, plus_class, (greedy_ext _ name_char) by apply in_class_locale.
    apply greedy_longest;
      [by apply name_nonempty|by apply name_all|apply name_char_dot|].
    cbn [pos rest caps]. unfold consumed. cbn [pos rest].
    replace (2 + String.length X - 2) with (String.length X) by lia.
    rewrite take_length_app.
    destruct Hext as [-> | ->]; reflexivity. }
  cbn [exec_from]. rewrite Hrun. f_equal.
  unfold match_array, consumed. cbn [pos rest]. f_equal.
  set (path := String "." (String "/" (X +:+ String "." ext))).
  replace (String.length ext + 3 + String.length X - 0) with (String.length path).
  - by rewrite take_length.
  - unfold path. simpl. rewrite length_app. simpl. lia.
Qed.

Lemma name_char_slash : name_char "/" = false.
Proof. reflexivity. Qed.

(** On [./L/D.<ext>] the scoped pattern matches the whole path and captures
    [L] and [D]. *)
Lemma exec_scoped_path L D ext :
  name L = true -> name D = true -> extension ext ->
  exec scoped_file (scoped_path L D ext)
  = Some [JS.Str (scoped_path L D ext); JS.Str L; JS.Str D].
Proof.
  intros HL HD Hext. unfold exec, scoped_path.
  change ("./" +:+ L +:+ "/" +:+ D +:+ "." +:+ ext)
    with (String "." (String "/" (L +:+ String "/" (D +:+ String "." ext)))).
  set (path := String "." (String "/" (L +:+ String "/" (D +:+ String "." ext)))).
  assert (compile scoped_file Some (MState 0 path [])
          = Some (MState (String.length ext + 1 + (S (2 + String.length L) + String.length D))
                         "" [(2, D); (1, L)])) as Hrun.
  { unfold scoped_file, path.
    rewrite compile_seq, compile_chr_hit, compile_seq, compile_chr_hit, compile_seq.
    rewrite compile_grp, plus_class, (greedy_ext _ name_char) by apply in_class_locale.
    apply greedy_longest;
      [by apply name_nonempty|by apply name_all|apply name_char_slash|].
    cbn [pos rest caps]. unfold consumed at 1. cbn [pos rest].
    replace (2 + String.length L - 2) with (String.length L) by lia.
    rewrite take_length_app.
    rewrite compile_seq, compile_chr_hit, compile_seq.
    rewrite compile_grp, plus_class, (greedy_ext _ name_char) by apply in_class_locale.
    apply greedy_longest;
      [by apply name_nonempty|by apply name_all|apply name_char_dot|].
    cbn [pos rest caps]. unfold consumed. cbn [pos rest].
    replace (S (2 + String.length L) + String.length D - S (2 + String.length L))
      with (String.length D) by lia.
    rewrite take_length_app.
    destruct Hext as [-> | ->]; reflexivity. }
  unfold path at 1. cbn [exec_from]. fold path. rewrite Hrun. f_equal.
  unfold match_array, consumed. cbn [pos rest]. f_equal.
  replace (String.length ext + 1 + (S (2 + String.length L) + String.length D) - 0)
    with (String.length path).
  - by rewrite take_length.
  - unfold path. simpl. rewrite !length_app. simpl. rewrite length_app. simpl. lia.
Qed.

End Matching.

(** ** The catalogue as a fold over the enumerated files *)

Section Catalogue.

Variable ignore : option IgnoreList.
Variable globalTranslationsKey : string.
Variable files : Context.

Local Abbreviation store := (importFile ignore globalTranslationsKey files).
Local Abbreviation target := (stored_under ignore globalTranslationsKey).

Lemma importFile_stored catalogue file :
  store catalogue file
  = match target file with
    | Some k => <[k := resolve files file]> catalogue
    | None => catalogue
    end.
Proof.
  unfold store, target, importFile, stored_under, left_out, catalogue_key.
  destruct (JS.truthy _); [done|].
  destruct ignore as [ig|]; [|done].
  by destruct (shouldIgnore ig _ _).
Qed.

Lemma fold_untouched k l : forall catalogue,
  Forall (fun f => target f <> Some k) l ->
  foldl store catalogue l !! k = catalogue !! k.
Proof.
  induction l as [|f l IH]; intros catalogue Hl; [done|].
  apply Forall_cons in Hl as [Hf Hl]. simpl. rewrite IH by done.
  rewrite importFile_stored. destruct (target f) as [k'|]; [|done].
  apply lookup_insert_ne. congruence.
Qed.

Lemma fold_last k f before after catalogue :
  target f = Some k ->
  Forall (fun f' => target f' <> Some k) after ->
  foldl store catalogue (before ++ f :: after) !! k = Some (resolve files f).
Proof.
  intros Hf Hafter. rewrite foldl_app. simpl.
  rewrite fold_untouched by done.
  rewrite importFile_stored, Hf. apply lookup_insert_eq.
Qed.

(** Either nothing in the list is stored under [k], or some file is the
    last one that is. *)
Lemma last_stored k l :
  Forall (fun f => target f <> Some k) l \/
  exists before f after,
    l = before ++ f :: after /\ target f = Some k /\
    Forall (fun f' => target f' <> Some k) after.
Proof.
  induction l as [|a l [IH|(before & f & after & -> & Hf & Hafter)]].
  - by left.
  - destruct (decide (target a = Some k)) as [Ha|Ha].
    + right. by exists [], a, l.
    + left. by constructor.
  - right. by exists (a :: before), f, after.
Qed.

End Catalogue.

(** ** Catalogue building *)

Lemma importTranslations_catalogue {Translator Args} ignore globalTranslationsKey
    (h : Host Translator Args) :
  (importTranslations ignore globalTranslationsKey h).1
  = foldl (importFile ignore globalTranslationsKey
             {| keys := enumerated h; resolve := lang_module h |})
          ∅ (enumerated h).
Proof. reflexivity. Qed.

Lemma stored_under_unfiltered globalTranslationsKey file :
  stored_under None globalTranslationsKey file = Some (catalogue_key globalTranslationsKey file).
Proof.
  unfold stored_under, left_out. by destruct (JS.truthy _).
Qed.

Lemma stored_under_filtered ignore globalTranslationsKey file k :
  stored_under ignore globalTranslationsKey file = Some k ->
  left_out ignore file = false /\ catalogue_key globalTranslationsKey file = k.
Proof.
  unfold stored_under. destruct (left_out ignore file); [done|]. by intros [= ->].
Qed.

Lemma root_path_classified ignore globalTranslationsKey X ext :
  name X = true -> extension ext ->
  left_out ignore (root_path X ext) = false /\
  catalogue_key globalTranslationsKey (root_path X ext) = X +:+ "." +:+ globalTranslationsKey.
Proof.
  intros HX Hext. unfold left_out, catalogue_key.
  rewrite exec_root_path by done. cbn [default JS.nth_value nth JS.truthy JS.template].
  by destruct (String.eqb_spec (root_path X ext) "").
Qed.

Lemma NoDup_map_inj {A B} (f : A -> B) (l : list A) x y :
  NoDup (List.map f l) -> In x l -> In y l -> f x = f y -> x = y.
Proof.
  induction l as [|a l IH]; [done|].
  simpl. rewrite NoDup_cons, list_elem_of_In, in_map_iff.
  intros [Ha Hl] [->|Hx] [->|Hy] Hxy; [done| | |by apply IH].
  - destruct Ha. by exists y.
  - destruct Ha. by exists x.
Qed.

(** A file is only left out when the scoped pattern yields a locale and a
    domain that the ignore list names. *)
Lemma left_out_named ignore globalTranslationsKey file :
  left_out ignore file = true ->
  exists L D,
    listed ignore L D /\ catalogue_key globalTranslationsKey file = L +:+ "." +:+ D.
Proof.
  unfold left_out, catalogue_key. destruct (JS.truthy _); [done|].
  destruct ignore as [entries|]; [|done].
  set (found := default [] (RegExp.exec RegExp.scoped_file file)).
  unfold shouldIgnore. intros ([L domains] & Hin & Hhit)%existsb_exists.
  apply andb_prop in Hhit as [HL HD].
  unfold JS.includes in HD. apply existsb_exists in HD as (D & HDin & HD).
  destruct (JS.nth_value found 1) as [|L']; [done|].
  destruct (JS.nth_value found 2) as [|D']; [done|].
  simpl in HL, HD. apply String.eqb_eq in HL as ->. apply String.eqb_eq in HD as ->.
  exists L, D. split; [|done]. by exists entries, domains.
Qed.

(** A root-level file [./X.<ext>] is not checked against the ignore list:
    it is assigned under [X.<globalTranslationsKey>] with its parsed content
    and nothing else happens for it, so the catalogue has that key. *)
Lemma root_file_assigned {Translator Args}
    ignore globalTranslationsKey (h : Host Translator Args) X ext :
  name X = true -> extension ext ->
  In (root_path X ext) (enumerated h) ->
  let key := X +:+ "." +:+ globalTranslationsKey in
  left_out ignore (root_path X ext) = false /\
  (forall files catalogue,
     importFile ignore globalTranslationsKey files catalogue (root_path X ext)
     = <[key := resolve files (root_path X ext)]> catalogue) /\
  is_Some ((importTranslations ignore globalTranslationsKey h).1 !! key).
Proof.
  intros HX Hext (before & after & Hfiles)%in_split key.
  destruct (root_path_classified ignore globalTranslationsKey X ext HX Hext) as [Hout Hkey].
  assert (stored_under ignore globalTranslationsKey (root_path X ext) = Some key) as Hstored.
  { unfold stored_under. by rewrite Hout, Hkey. }
  split; [done|]. split.
  - intros files catalogue. by rewrite importFile_stored, Hstored.
  - rewrite importTranslations_catalogue, Hfiles.
    destruct (last_stored ignore globalTranslationsKey key after)
      as [Hnone|(mid & f & rest & -> & Hf & Hrest)].
    + by rewrite (fold_last _ _ _ _ (root_path X ext)).
    + replace (before ++ root_path X ext :: mid ++ f :: rest)
        with ((before ++ root_path X ext :: mid) ++ f :: rest)
        by (by rewrite <- app_assoc).
      by rewrite (fold_last _ _ _ _ f).
Qed.

(** C6 fails on the code.  The bundle holds the root-level file [./en.json]
    and the scoped file [./en/json-api.php], one file per locale and domain,
    in the order the bundler lists them.  The root pattern is not anchored
    and matches inside the scoped path as well, so the scoped file is
    assigned under [en.__global__] after the root-level file: the catalogue
    holds the scoped file's content under the key of the root-level file. *)
Theorem root_file_overwritten_by_scoped_file :
  let h := page ["./en.json"; "./en/json-api.php"] module_of in
  let catalogue := (importTranslations None "__global__" h).1 in
  enumerated h = [root_path "en" "json"; scoped_path "en" "json-api" "php"] /\
  catalogue_key "__global__" (root_path "en" "json") = "en.__global__" /\
  catalogue_key "__global__" (scoped_path "en" "json-api" "php") = "en.__global__" /\
  catalogue = {[ "en.__global__" := module_of "./en/json-api.php" ]} /\
  catalogue !! "en.__global__" <> Some (module_of "./en.json") /\
  ~ root_files_kept None "__global__" h.
Proof.
  cbv zeta. repeat split; try (vm_compute; reflexivity).
  - vm_compute. discriminate.
  - intros Hkept.
    specialize (Hkept "en" "json" eq_refl (or_intror eq_refl) (or_introl eq_refl)).
    vm_compute in Hkept. discriminate Hkept.
Qed.




Lemma fold_without_left_out ignore globalTranslationsKey files l : forall catalogue,
  foldl (importFile ignore globalTranslationsKey files) catalogue l
  = foldl (importFile None globalTranslationsKey files) catalogue
      (List.filter (fun f => negb (left_out ignore f)) l).
Proof.
  induction l as [|f l IH]; intros catalogue; [done|].
  simpl. rewrite IH, importFile_stored. unfold stored_under.
  destruct (left_out ignore f); [done|].
  simpl. by rewrite importFile_stored, stored_under_unfiltered.
Qed.

Lemma importFile_resolve ignore globalTranslationsKey files files' catalogue file :
  resolve files = resolve files' ->
  importFile ignore globalTranslationsKey files catalogue file
  = importFile ignore globalTranslationsKey files' catalogue file.
Proof. intros Hresolve. unfold importFile. by rewrite Hresolve. Qed.

Lemma fold_resolve ignore globalTranslationsKey files files' l : forall catalogue,
  resolve files = resolve files' ->
  foldl (importFile ignore globalTranslationsKey files) catalogue l
  = foldl (importFile ignore globalTranslationsKey files') catalogue l.
Proof.
  induction l as [|f l IH]; intros catalogue Hresolve; [done|].
  simpl. rewrite IH by done. f_equal. by apply importFile_resolve.
Qed.

Lemma filter_filter_comm {A} (p q : A -> bool) l :
  List.filter p (List.filter q l) = List.filter q (List.filter p l).
Proof.
  induction l as [|a l IH]; [done|].
  simpl. destruct (p a) eqn:Hp, (q a) eqn:Hq; simpl; rewrite ?Hp, ?Hq, IH; done.
Qed.

Lemma enumerated_without_named {Translator Args} ignore (h : Host Translator Args) :
  enumerated (without_named ignore h)
  = List.filter (fun file => negb (names_file ignore file)) (enumerated h).
Proof.
  unfold enumerated, lang_context, require_context, without_named.
  cbn [fst keys lang_paths]. apply filter_filter_comm.
Qed.

(** Where [importFile] leaves out exactly the files the ignore list names,
    the catalogue is the unfiltered one of the remaining files. *)
Lemma ignored_entries_removed_where_classified {Translator Args}
    ignore globalTranslationsKey (h : Host Translator Args) :
  (forall file, In file (enumerated h) -> left_out ignore file = names_file ignore file) ->
  ignored_entries_removed ignore globalTranslationsKey h.
Proof.
  intros Hclassified. unfold ignored_entries_removed.
  rewrite !importTranslations_catalogue, enumerated_without_named, fold_without_left_out.
  rewrite (List.filter_ext_in (fun f => negb (left_out ignore f))
             (fun file => negb (names_file ignore file)))
    by (intros f Hf; by rewrite Hclassified).
  by apply fold_resolve.
Qed.

(** C7 fails on the code.  The ignore list names [(en, json-api)] and the
    bundle holds the scoped file [./en/json-api.php].  The root pattern
    matches inside that path, so the file is stored as a root-level file and
    never checked against the list: the catalogue built with the list equals
    the one built without it and still holds the file's content, where the
    unfiltered catalogue minus that file's entry holds [en.auth] alone.
    When the global key is [json-api] the file is even stored under
    [en.json-api], and the catalogue built with the list keeps the very key
    the list names. *)
Theorem ignored_file_kept_as_root_file :
  let ignore := Some [("en", ["json-api"])] in
  let h := page ["./en/auth.php"; "./en/json-api.php"] module_of in
  let filtered := (importTranslations ignore "__global__" h).1 in
  let unfiltered := (importTranslations None "__global__" h).1 in
  let alone := page ["./en/json-api.php"] module_of in
  listed ignore "en" "json-api" /\
  (enumerated h = [scoped_path "en" "auth" "php"; scoped_path "en" "json-api" "php"] /\
   names_file ignore (scoped_path "en" "auth" "php") = false /\
   names_file ignore (scoped_path "en" "json-api" "php") = true /\
   filtered = unfiltered /\
   filtered !! "en.__global__" = Some (module_of "./en/json-api.php") /\
   (importTranslations None "__global__" (without_named ignore h)).1
   = {[ "en.auth" := module_of "./en/auth.php" ]} /\
   ~ ignored_entries_removed ignore "__global__" h) /\
  (enumerated alone = [scoped_path "en" "json-api" "php"] /\
   (importTranslations ignore "json-api" alone).1 !! "en.json-api"
   = Some (module_of "./en/json-api.php") /\
   (importTranslations None "json-api" (without_named ignore alone)).1 = ∅ /\
   ~ ignored_entries_removed ignore "json-api" alone).
Proof.
  cbv zeta. split; [|split].
  - exists [("en", ["json-api"])], ["json-api"]. repeat split; by left.
  - repeat split; try (vm_compute; reflexivity).
    unfold ignored_entries_removed. intros Hremoved.
    apply (f_equal (fun catalogue => catalogue !! "en.__global__")) in Hremoved.
    vm_compute in Hremoved. discriminate Hremoved.
  - repeat split; try (vm_compute; reflexivity).
    unfold ignored_entries_removed. intros Hremoved.
    apply (f_equal (fun catalogue => catalogue !! "en.json-api")) in Hremoved.
    vm_compute in Hremoved. discriminate Hremoved.
Qed.

(** ** The translation helper *)

Lemma not_qualified_matches key :
  ~ qualified_shape key -> RegExp.matches RegExp.qualified_key key = false.
Proof.
  intros Hkey. apply not_true_is_false. by rewrite matches_qualified_key.
Qed.




(** C5: a key of the qualified shape goes to the translator as it is, and
    what the translator returns is returned untouched. *)
Theorem qualified_key_passes_through {Translator Args}
    (get : Translator -> string -> Args -> string) i18n globalTranslationsKey key args :
  qualified_shape key ->
  __ get i18n globalTranslationsKey key args = get i18n key args.
Proof.
  intros Hkey%matches_qualified_key. unfold __. by rewrite Hkey.
Qed.

Lemma qualified_key_passes_through_witness :
  __ (table_get [("auth.failed", "__global__.credentials")]) tt "__global__" "auth.failed" tt
  = "__global__.credentials".
Proof.
  refine (qualified_key_passes_through
    (table_get [("auth.failed", "__global__.credentials")]) tt
    "__global__" "auth.failed" tt _).
  exists ["auth"; "failed"]. split; [simpl; lia|]. split; [|reflexivity].
  repeat constructor.
Defined.

(** C10: a key with a dot in it that is not of the qualified shape is
    treated as a bare key: it is looked up inside the global domain. *)
Theorem dotted_unqualified_key_is_global {Translator Args}
    (get : Translator -> string -> Args -> string) i18n globalTranslationsKey key args :
  (exists a b, key = a +:+ "." +:+ b) ->
  ~ qualified_shape key ->
  __ get i18n globalTranslationsKey key args
  = (let result := get i18n (globalTranslationsKey +:+ "." +:+ key) args in
     if JS.startsWith result globalTranslationsKey
     then JS.substr result (String.length globalTranslationsKey + 1)
     else result).
Proof.
  intros _ Hkey. unfold __. by rewrite not_qualified_matches.
Qed.

Lemma unqualified_examples :
  ~ qualified_shape "auth.failed!" /\ ~ qualified_shape ".x" /\
  ~ qualified_shape "x." /\ ~ qualified_shape "a..b".
Proof.
  repeat split; intros H%matches_qualified_key; vm_compute in H; discriminate.
Qed.

Lemma dotted_unqualified_key_is_global_witness :
  __ (table_get [("a..b", "qualified"); ("__global__.a..b", "global")]) tt "__global__" "a..b" tt
  = "global".
Proof.
  refine (dotted_unqualified_key_is_global
    (table_get [("a..b", "qualified"); ("__global__.a..b", "global")]) tt
    "__global__" "a..b" tt _ _).
  - by exists "a", ".b".
  - apply unqualified_examples.
Defined.

(** Where the prefix test of the code and that of the specification agree,
    [__] is the specified cut. *)
Lemma global_lookup_as_specified {Translator Args}
    (get : Translator -> string -> Args -> string) i18n globalTranslationsKey key args :
  ~ qualified_shape key ->
  let result := get i18n (globalTranslationsKey +:+ "." +:+ key) args in
  JS.startsWith result globalTranslationsKey
  = JS.startsWith result (globalTranslationsKey +:+ ".") ->
  __ get i18n globalTranslationsKey key args = strip_global globalTranslationsKey result.
Proof.
  intros Hkey result Hagree. unfold __, strip_global. fold result.
  rewrite not_qualified_matches, Hagree, length_app by done. reflexivity.
Qed.

(** C4 fails on the code: [__] tests the result against the global key
    without the dot, yet cuts the key and one more character.  A genuine
    translation that begins with the key's letters loses its head. *)
Theorem genuine_translation_loses_prefix :
  let get := table_get [("global.title", "globalization settings")] in
  ~ qualified_shape "title" /\
  get tt "global.title" tt = "globalization settings" /\
  JS.startsWith "globalization settings" "global." = false /\
  strip_global "global" "globalization settings" = "globalization settings" /\
  __ get tt "global" "title" tt = "zation settings".
Proof.
  split; [|by vm_compute].
  intros H%matches_qualified_key. vm_compute in H. discriminate.
Qed.

(** ** Installing the plugin *)

(** With a global key that is a string, the installed function is [__]
    and does not throw. *)
Lemma __installed_string {Translator Args}
    (get : Translator -> string -> Args -> string) i18n globalTranslationsKey key args :
  __installed get i18n (JS.Value globalTranslationsKey) key args
  = JS.Return (__ get i18n globalTranslationsKey key args).
Proof.
  unfold __installed, __. cbn [JS.template_property].
  destruct (RegExp.matches _ _); [done|]. by destruct (JS.startsWith _ _).
Qed.

(** C8 fails on the code.  A [messages] option that holds a catalogue
    reaches the translator and [require.context] is never evaluated, and
    without the property the translator gets the catalogue
    [importTranslations] builds.  With [messages] set to [undefined] or
    [null], [??] evaluates [importTranslations] all the same, and the spread
    that follows replaces the catalogue it built: discovery is not bypassed,
    and the translator is constructed without a catalogue. *)
Theorem messages_option_and_discovery {Translator Args}
    (Translator_new : Options -> Translator)
    (get : Translator -> string -> Args -> string)
    options (h : Host Translator Args) :
  exists translatorOptions,
    let i18n := Translator_new translatorOptions in
    let key := spread_over "__global__" (globalTranslationsKey options) in
    let discovery :=
      importTranslations (JS.defined (ignore options)) (JS.template_property key) h in
    let bypassed :=
      effects h ++ [NewTranslator translatorOptions;
                    VueMixin i18n (__installed get i18n key)] in
    let discovered :=
      effects h ++ [RequireContext "@lang" true RegExp.lang_file;
                    NewTranslator translatorOptions;
                    VueMixin i18n (__installed get i18n key)] in
    match messages options with
    | JS.Value supplied =>
        messages translatorOptions = JS.Value supplied /\
        effects (install Translator_new get options h) = bypassed
    | JS.NoProperty =>
        messages translatorOptions = JS.Value discovery.1 /\
        effects (install Translator_new get options h) = discovered
    | JS.UndefinedValue =>
        messages translatorOptions = JS.UndefinedValue /\
        effects (install Translator_new get options h) = discovered
    | JS.NullValue =>
        messages translatorOptions = JS.NullValue /\
        effects (install Translator_new get options h) = discovered
    end.
Proof.
  pose (passed discovered :=
    {| fallback := spread_over (or_else (document_lang h) (navigator_language h))
                               (fallback options);
       messages := spread_over discovered (messages options);
       ignore := ignore options;
       globalTranslationsKey := spread_over "__global__" (globalTranslationsKey options);
       locale := locale options |}).
  unfold install.
  destruct (messages options) as [| | |supplied] eqn:Hmessages.
  1-3: exists (passed (importTranslations (JS.defined (ignore options))
                        (JS.template_property
                           (spread_over "__global__" (globalTranslationsKey options))) h).1);
    unfold passed; rewrite ?Hmessages; cbn zeta; (split; [reflexivity|]);
    unfold importTranslations, require_context;
    cbn [perform effects]; by rewrite <- !app_assoc.
  exists (passed supplied). unfold passed. rewrite ?Hmessages. cbn zeta.
  split; [reflexivity|]. cbn [perform effects]. by rewrite <- app_assoc.
Qed.

(** ** Where the catalogue departs from the specification *)

Lemma shouldIgnore_undefined entries domain :
  shouldIgnore entries JS.Undefined domain = false.
Proof. induction entries as [|[? ?] ? IH]; [done|]. exact IH. Qed.

(** A path neither pattern matches is stored all the same, with or without
    an ignore list. *)
Lemma unmatched_file_stored ignore globalTranslationsKey file :
  RegExp.exec RegExp.root_file file = None ->
  RegExp.exec RegExp.scoped_file file = None ->
  stored_under ignore globalTranslationsKey file = Some "undefined.undefined".
Proof.
  intros Hroot Hscoped. unfold stored_under, left_out, catalogue_key.
  rewrite Hroot, Hscoped. cbn [default JS.nth_value nth JS.truthy JS.template].
  destruct ignore as [entries|]; [|done].
  by rewrite shouldIgnore_undefined.
Qed.

(** A scoped file the root pattern does not match is stored under [L.D]
    unless the ignore list names that pair. *)
Lemma scoped_path_classified ignore globalTranslationsKey L D ext :
  name L = true -> name D = true -> extension ext ->
  RegExp.exec RegExp.root_file (scoped_path L D ext) = None ->
  catalogue_key globalTranslationsKey (scoped_path L D ext) = L +:+ "." +:+ D /\
  (left_out ignore (scoped_path L D ext) = true <->
   exists entries domains,
     ignore = Some entries /\ In (L, domains) entries /\ In D domains).
Proof.
  intros HL HD Hext Hroot. unfold left_out, catalogue_key.
  rewrite Hroot, exec_scoped_path by done.
  cbn [default JS.nth_value nth JS.truthy JS.template].
  split; [done|]. destruct ignore as [entries|].
  - unfold shouldIgnore. rewrite existsb_exists. split.
    + intros ([L' domains] & Hin & [HL' Hdom]%andb_prop).
      apply String.eqb_eq in HL' as <-.
      apply existsb_exists in Hdom as (D' & HD' & <-%String.eqb_eq).
      by exists entries, domains.
    + intros (entries' & domains & [= <-] & Hin & Hdom).
      exists (L, domains). split; [done|]. apply andb_true_intro. split.
      * apply String.eqb_refl.
      * apply existsb_exists. exists D. split; [done|]. apply String.eqb_refl.
  - split; [done|]. by intros (? & ? & ? & _).
Qed.

Lemma scoped_path_listed ignore L D ext :
  name L = true -> name D = true -> extension ext ->
  RegExp.exec RegExp.root_file (scoped_path L D ext) = None ->
  left_out ignore (scoped_path L D ext) = true <-> listed ignore L D.
Proof. intros HL HD Hext Hroot. by apply (scoped_path_classified ignore ""). Qed.

(** C1 fails on the code: the root pattern is not anchored and its dot
    matches any character, so [./en/json-api.php] is taken for a root-level
    file of locale [en].  No entry [en.json-api] is made. *)
Theorem scoped_file_taken_for_root_file :
  let h := page [scoped_path "en" "json-api" "php"] module_of in
  name "en" = true /\ name "json-api" = true /\
  enumerated h = ["./en/json-api.php"] /\
  RegExp.exec RegExp.root_file "./en/json-api.php" = Some [JS.Str "./en/json"; JS.Str "en"] /\
  (importTranslations None "__global__" h).1
  = {[ "en.__global__" := module_of "./en/json-api.php" ]} /\
  (importTranslations None "__global__" h).1 !! "en.json-api" = None /\
  ~ scoped_files_filtered None "__global__" h.
Proof.
  repeat split; try by vm_compute.
  intros Hfiltered.
  destruct (Hfiltered "en" "json-api" "php" eq_refl eq_refl (or_introl eq_refl)
              (or_introl eq_refl)) as [_ Hkept].
  assert (~ listed None "en" "json-api") as Hfree by (by intros (? & ? & ? & _)).
  specialize (Hkept Hfree). vm_compute in Hkept. discriminate Hkept.
Qed.

(** C2 fails on the code: the result of the scoped pattern is never tested,
    so a path that matches neither pattern is stored under
    [undefined.undefined]. *)
Theorem unmatched_file_stored_as_undefined :
  let nested := "./vendor/backup/en/notifications.php" in
  let without := page ["./fr.json"] module_of in
  let with_nested := page ["./fr.json"; nested] module_of in
  RegExp.exec RegExp.root_file nested = None /\
  RegExp.exec RegExp.scoped_file nested = None /\
  enumerated with_nested = ["./fr.json"; nested] /\
  (importTranslations None "__global__" without).1 !! "undefined.undefined" = None /\
  (importTranslations None "__global__" with_nested).1 !! "undefined.undefined"
  = Some (module_of nested) /\
  (importTranslations None "__global__" with_nested).1
  <> (importTranslations None "__global__" without).1.
Proof.
  repeat split; by vm_compute.
Qed.

(** ** Further properties: what the patterns accept *)

Section Patterns.

Import RegExp.

Lemma exec_from_some r s : forall i,
  is_Some (exec_from r i s) <->
  exists a b, s = a +:+ b /\ is_Some (compile r Some (MState (i + String.length a) b [])).
Proof.
  induction s as [|c s IH]; intros i; cbn [exec_from].
  - destruct (compile r Some (MState i "" [])) as [st|] eqn:Hrun.
    + split; [|by eexists]. intros _. exists "", "". simpl.
      by rewrite Nat.add_0_r, Hrun.
    + split; [by intros [? ?]|]. intros (a & b & Hs & Hb).
      destruct a; [|discriminate Hs]. change ("" = b) in Hs. subst b.
      simpl in Hb. by rewrite Nat.add_0_r, Hrun in Hb.
  - destruct (compile r Some (MState i (String c s) [])) as [st|] eqn:Hrun.
    + split; [|by eexists]. intros _. exists "", (String c s). simpl.
      by rewrite Nat.add_0_r, Hrun.
    + rewrite IH. split.
      * intros (a & b & -> & Hb). exists (String c a), b. split; [done|].
        simpl. by rewrite Nat.add_succ_r.
      * intros (a & b & Hs & Hb). destruct a as [|c' a].
        -- change (String c s = b) in Hs. subst b. simpl in Hb.
           by rewrite Nat.add_0_r, Hrun in Hb.
        -- rewrite app_cons in Hs. injection Hs as -> ->.
           exists a, b. split; [done|]. simpl in Hb. by rewrite Nat.add_succ_r in Hb.
Qed.

Lemma matches_some r s : matches r s = true <-> is_Some (exec r s).
Proof. unfold matches. destruct (exec r s); split; done. Qed.

Lemma chr_some c k i s caps :
  is_Some (compile (Chr c) k (MState i s caps)) <->
  exists t, s = String c t /\ is_Some (k (MState (S i) t caps)).
Proof.
  cbn [compile]. unfold CharacterSetMatcher. cbn [rest pos RegExp.caps].
  destruct s as [|c' t].
  - split; [by intros [? ?]|]. by intros (? & ? & _).
  - destruct (Ascii.eqb_spec c c') as [<-|Hne].
    + split; [by exists t|]. by intros (? & [= <-] & ?).
    + split; [by intros [? ?]|]. intros (? & [= ? ?] & _). by destruct Hne.
Qed.

Lemma seq_chr_some c r k i s caps :
  is_Some (compile (Seq (Chr c) r) k (MState i s caps)) <->
  exists t, s = String c t /\ is_Some (compile r k (MState (S i) t caps)).
Proof. rewrite compile_seq. apply chr_some. Qed.

Lemma php_or_json_some k i s caps :
  is_Some (compile php_or_json k (MState i s caps)) <->
  (exists t, s = "php" +:+ t /\ is_Some (k (MState (3 + i) t caps))) \/
  (exists t, s = "json" +:+ t /\ is_Some (k (MState (4 + i) t caps))).
Proof.
  unfold php_or_json.
  change (compile (Alt ?a ?b) k ?st)
    with (match compile a k st with Some r => Some r | None => compile b k st end).
  rewrite is_Some_first. split.
  - intros [H|H]; [left|right].
    + apply seq_chr_some in H as (t1 & -> & H). apply seq_chr_some in H as (t2 & -> & H).
      apply chr_some in H as (t3 & -> & H). by exists t3.
    + apply seq_chr_some in H as (t1 & -> & H). apply seq_chr_some in H as (t2 & -> & H).
      apply seq_chr_some in H as (t3 & -> & H). apply chr_some in H as (t4 & -> & H).
      by exists t4.
  - intros [(t & -> & H)|(t & -> & H)]; [left|right]; exact H.
Qed.

Lemma startsWith_spec s p : JS.startsWith s p = true <-> exists t, s = p +:+ t.
Proof.
  revert s. induction p as [|c p IH]; intros s.
  - destruct s; (split; [by eexists|done]).
  - destruct s as [|c' s]; simpl.
    + split; [done|]. by intros (? & ?).
    + rewrite andb_true_iff, IH. split.
      * intros [->%Ascii.eqb_eq (t & ->)]. by exists t.
      * intros (t & [= -> ->]). split; [apply Ascii.eqb_refl|by exists t].
Qed.

Lemma begins_with_extension_spec s :
  begins_with_extension s = true <-> exists ext t, extension ext /\ s = ext +:+ t.
Proof.
  unfold begins_with_extension, extension. rewrite orb_true_iff, !startsWith_spec. split.
  - intros [(t & ->)|(t & ->)]; [exists "php", t|exists "json", t]; auto.
  - intros (ext & t & [-> | ->] & ->); [left|right]; by exists t.
Qed.

(** [/\.(php|json)$/] accepts the paths that end in [.php] or [.json]. *)
Lemma matches_lang_file path :
  matches lang_file path = true <->
  exists stem ext, extension ext /\ path = stem +:+ "." +:+ ext.
Proof.
  rewrite matches_some. unfold exec. rewrite exec_from_some. split.
  - intros (a & b & -> & Hrun). unfold lang_file in Hrun.
    apply seq_chr_some in Hrun as (t & -> & Hrun).
    rewrite compile_seq, compile_grp in Hrun.
    apply php_or_json_some in Hrun as [(t' & -> & Hend)|(t' & -> & Hend)];
      apply compile_eol_some in Hend; cbn [rest] in Hend; subst t'.
    + exists a, "php". split; [by left|done].
    + exists a, "json". split; [by right|done].
  - intros (stem & ext & Hext & ->). exists stem, ("." +:+ ext). split; [done|].
    destruct Hext as [-> | ->]; by eexists.
Qed.

Lemma compile_chr c k i s caps :
  compile (Chr c) k (MState i s caps)
  = match s with
    | String c' t => if Ascii.eqb c c' then k (MState (S i) t caps) else None
    | EmptyString => None
    end.
Proof. reflexivity. Qed.

(** A match never moves backwards. *)
Lemma repeat_forward (m : matcher) k n :
  (forall k', (forall a b, k' a = Some b -> pos a <= pos b) ->
              forall a b, m k' a = Some b -> pos a <= pos b) ->
  (forall a b, k a = Some b -> pos a <= pos b) ->
  forall a b, RepeatMatcher m n k a = Some b -> pos a <= pos b.
Proof.
  intros Hm Hk. induction n as [|n IH]; intros a b; [apply Hk|].
  rewrite RepeatMatcher_S.
  destruct (m _ a) as [r|] eqn:Hiter; [|apply Hk].
  intros [= <-]. eapply Hm; [|exact Hiter].
  intros a' b'. cbv beta. destruct (pos a' =? pos a); [done|apply IH].
Qed.

Lemma compile_forward r : forall k,
  (forall a b, k a = Some b -> pos a <= pos b) ->
  forall a b, compile r k a = Some b -> pos a <= pos b.
Proof.
  assert (forall p k, (forall a b, k a = Some b -> pos a <= pos b) ->
            forall a b, CharacterSetMatcher p k a = Some b -> pos a <= pos b) as Hchar.
  { intros p k Hk a b. unfold CharacterSetMatcher.
    destruct (rest a) as [|c t]; [done|]. destruct (p c); [|done].
    intros Hb%Hk. cbn [pos] in Hb. lia. }
  induction r as [c| |ranges| | |r1 IH1 r2 IH2|r1 IH1 r2 IH2|r IH|n r IH];
    intros k Hk a b; cbn [compile]; try (by apply Hchar).
  - destruct (pos a =? 0); [apply Hk|done].
  - destruct (rest a); [apply Hk|done].
  - apply IH1, IH2, Hk.
  - destruct (compile r1 k a) as [st|] eqn:Hleft.
    + intros [= <-]. by eapply IH1.
    + by apply IH2.
  - apply IH. intros a' b'. cbv beta. by apply repeat_forward.
  - apply IH. intros a' b' Hb%Hk. exact Hb.
Qed.

(** What [exec] returns comes from one run of the matcher at some index. *)
Lemma exec_from_found r s found : forall i,
  exec_from r i s = Some found ->
  exists a b st,
    s = a +:+ b /\
    compile r Some (MState (i + String.length a) b []) = Some st /\
    found = match_array r (MState (i + String.length a) b []) st.
Proof.
  induction s as [|c s IH]; intros i; cbn [exec_from].
  - destruct (compile r Some (MState i "" [])) as [st|] eqn:Hrun; [|done].
    intros [= <-]. exists "", "", st. simpl. by rewrite Nat.add_0_r.
  - destruct (compile r Some (MState i (String c s) [])) as [st|] eqn:Hrun.
    + intros [= <-]. exists "", (String c s), st. simpl. by rewrite Nat.add_0_r.
    + intros (a & b & st & -> & Hb & ->)%IH.
      exists (String c a), b, st. simpl. by rewrite Nat.add_succ_r.
Qed.

(** A match of the root pattern is never the empty string, so [isGlobal]
    is truthy whenever the pattern matches. *)
Lemma root_match_truthy file found :
  exec root_file file = Some found -> JS.truthy (JS.nth_value found 0) = true.
Proof.
  intros (a & b & st & _ & Hrun & ->)%exec_from_found.
  unfold root_file in Hrun. rewrite compile_seq, compile_chr in Hrun.
  destruct b as [|c t]; [done|].
  destruct (Ascii.eqb "." c); [|done].
  apply compile_forward in Hrun; [|by intros ? ? [= ->]].
  cbn [pos] in Hrun. unfold match_array, consumed. cbn [JS.nth_value nth pos rest].
  destruct (pos st - (0 + String.length a)) as [|n] eqn:Hlen; [lia|done].
Qed.

Lemma name_char_not_terminator c : name_char c = true -> line_terminator c = false.
Proof. by destruct c as [[] [] [] [] [] [] [] []]. Qed.

Lemma name_char_not_dot c : name_char c = true -> Ascii.eqb "." c = false.
Proof. by destruct c as [[] [] [] [] [] [] [] []]. Qed.

Lemma compile_dot k i s caps :
  compile Dot k (MState i s caps)
  = match s with
    | String c t => if negb (line_terminator c) then k (MState (S i) t caps) else None
    | EmptyString => None
    end.
Proof. reflexivity. Qed.

Lemma dot_extension_some i s caps :
  is_Some (compile (Seq Dot php_or_json) Some (MState i s caps)) <->
  any_then_extension s = true.
Proof.
  rewrite compile_seq, compile_dot. destruct s as [|c t]; cbn [any_then_extension].
  - split; [by intros [? ?]|done].
  - destruct (line_terminator c); cbn [negb andb].
    + split; [by intros [? ?]|done].
    + rewrite php_or_json_some, begins_with_extension_spec. split.
      * intros [(t' & -> & _)|(t' & -> & _)];
          [exists "php", t'|exists "json", t']; unfold extension; auto.
      * intros (ext & t' & [-> | ->] & ->); [left|right]; by exists t'.
Qed.

Lemma greedy_run k s : forall i caps,
  (forall st, is_Some (k st) <-> any_then_extension (rest st) = true) ->
  is_Some (greedy name_char k i s caps) <-> run_then_extension s = true.
Proof.
  intros i caps Hk. revert i. induction s as [|c t IH]; intros i; simpl.
  - split; [by intros [? ?]|done].
  - destruct (name_char c); simpl.
    + rewrite is_Some_first, IH, Hk, orb_true_iff. reflexivity.
    + split; [by intros [? ?]|done].
Qed.

(** Appending text that starts with a character foreign to [p] does not
    make a string start with [p]. *)
Lemma startsWith_app_foreign p c t : forall s,
  all_chars (fun x => negb (Ascii.eqb x c)) p = true ->
  JS.startsWith (s +:+ String c t) p = JS.startsWith s p.
Proof.
  induction p as [|a p IH]; intros s Hp.
  - by destruct s.
  - simpl in Hp. apply andb_prop in Hp as [Ha Hp].
    destruct s as [|b s].
    + rewrite app_empty_l. simpl. apply negb_true_iff in Ha. by rewrite Ha.
    + rewrite app_cons. simpl. by rewrite IH.
Qed.

Lemma begins_with_extension_app s c t :
  c = "/"%char \/ c = "."%char ->
  begins_with_extension (s +:+ String c t) = begins_with_extension s.
Proof.
  intros Hc. unfold begins_with_extension.
  by destruct Hc as [-> | ->]; rewrite !startsWith_app_foreign.
Qed.

Lemma run_then_extension_scoped L rest :
  name L = true ->
  run_then_extension (L +:+ String "/" rest)
  = begins_with_extension rest || extension_inside L.
Proof.
  intros HL. destruct L as [|c L]; [done|].
  rewrite name_cons in HL. apply andb_prop in HL as [Hc HL].
  revert c Hc. induction L as [|c' L IH]; intros c Hc.
  - rewrite app_cons, app_empty_l. simpl. rewrite Hc. simpl.
    by rewrite orb_false_r.
  - simpl in HL. apply andb_prop in HL as [Hc' HL].
    rewrite app_cons. cbn [run_then_extension]. rewrite Hc, IH by done.
    rewrite app_cons. cbn [any_then_extension].
    rewrite name_char_not_terminator, begins_with_extension_app by auto.
    change (extension_inside (String c (String c' L)))
      with (begins_with_extension L || extension_inside (String c' L)).
    cbn [negb andb].
    generalize (begins_with_extension rest) (begins_with_extension L)
      (extension_inside (String c' L)).
    by intros [] [] [].
Qed.

(** Behind the leading [./] of a scoped path the root pattern finds no
    second place to start. *)
Lemma exec_from_root_names X rest : forall i,
  all_chars name_char X = true ->
  exec_from root_file (i + String.length X) rest = None ->
  exec_from root_file i (X +:+ rest) = None.
Proof.
  induction X as [|c X IH]; intros i HX Hrest.
  - simpl in Hrest. by rewrite Nat.add_0_r in Hrest.
  - simpl in HX. apply andb_prop in HX as [Hc HX].
    rewrite app_cons. cbn [exec_from]. unfold root_file at 1.
    rewrite compile_seq, compile_chr, name_char_not_dot by done.
    apply IH; [done|]. simpl in Hrest. by rewrite Nat.add_succ_r in Hrest.
Qed.

Lemma exec_from_root_slash rest i :
  exec_from root_file i (String "/" rest) = exec_from root_file (S i) rest.
Proof. reflexivity. Qed.

Lemma exec_from_root_tail L D ext i :
  name L = true -> name D = true -> extension ext ->
  exec_from root_file i (String "/" (L +:+ String "/" (D +:+ String "." ext))) = None.
Proof.
  intros HL HD Hext. rewrite exec_from_root_slash.
  apply exec_from_root_names; [by apply name_all|].
  rewrite exec_from_root_slash.
  apply exec_from_root_names; [by apply name_all|].
  by destruct Hext as [-> | ->].
Qed.

Lemma exec_from_cons r i c s :
  exec_from r i (String c s)
  = match compile r Some (MState i (String c s) []) with
    | Some st => Some (match_array r (MState i (String c s) []) st)
    | None => exec_from r (S i) s
    end.
Proof. reflexivity. Qed.

(** On a scoped path the root pattern matches exactly when the domain
    begins with an extension or the locale holds one from its third
    character on. *)
Lemma matches_root_scoped L D ext :
  name L = true -> name D = true -> extension ext ->
  matches root_file (scoped_path L D ext)
  = begins_with_extension D || extension_inside L.
Proof.
  intros HL HD Hext.
  apply eq_true_iff_eq. rewrite matches_some.
  unfold exec, scoped_path.
  change ("./" +:+ L +:+ "/" +:+ D +:+ "." +:+ ext)
    with (String "." (String "/" (L +:+ String "/" (D +:+ String "." ext)))).
  rewrite exec_from_cons, exec_from_root_tail by done.
  set (st0 := MState 0 _ []).
  assert (is_Some (compile root_file Some st0)
          <-> begins_with_extension D || extension_inside L = true) as Hrun.
  { unfold st0, root_file.
    rewrite compile_seq, compile_chr_hit, compile_seq, compile_chr_hit, compile_seq.
    rewrite compile_grp, plus_class, (greedy_ext _ name_char) by apply in_class_locale.
    rewrite greedy_run by (intros st; apply dot_extension_some).
    by rewrite run_then_extension_scoped, begins_with_extension_app by auto. }
  rewrite <- Hrun. destruct (compile root_file Some st0); split; done.
Qed.

End Patterns.

(** ** Further properties: helpers *)

Lemma shouldIgnore_listed entries L D :
  shouldIgnore entries (JS.Str L) (JS.Str D) = true <-> listed (Some entries) L D.
Proof.
  unfold shouldIgnore, listed. rewrite existsb_exists. split.
  - intros ([L' domains] & Hin & [HL' Hdom]%andb_prop).
    apply String.eqb_eq in HL' as <-.
    apply existsb_exists in Hdom as (D' & HD' & <-%String.eqb_eq).
    by exists entries, domains.
  - intros (entries' & domains & [= <-] & Hin & Hdom).
    exists (L, domains). split; [done|]. apply andb_true_intro. split.
    + apply String.eqb_refl.
    + apply existsb_exists. exists D. split; [done|]. apply String.eqb_refl.
Qed.

Lemma shouldIgnore_undefined_domain entries locale :
  shouldIgnore entries locale JS.Undefined = false.
Proof.
  induction entries as [|[L domains] entries IH]; [done|].
  simpl. rewrite IH, orb_false_r. apply andb_false_intro2.
  by induction domains.
Qed.

(** What makes [importFile] leave a file out. *)
Lemma left_out_iff ignore file :
  left_out ignore file = true <->
  JS.truthy (JS.nth_value (default [] (RegExp.exec RegExp.root_file file)) 0) = false /\
  exists L D,
    JS.nth_value (default [] (RegExp.exec RegExp.scoped_file file)) 1 = JS.Str L /\
    JS.nth_value (default [] (RegExp.exec RegExp.scoped_file file)) 2 = JS.Str D /\
    listed ignore L D.
Proof.
  unfold left_out. destruct (JS.truthy _).
  { split; [done|]. by intros [? _]. }
  destruct ignore as [entries|].
  - destruct (JS.nth_value _ 1) as [|L].
    { rewrite shouldIgnore_undefined. split; [done|]. by intros [_ (? & ? & ? & _)]. }
    destruct (JS.nth_value _ 2) as [|D].
    { rewrite shouldIgnore_undefined_domain. split; [done|].
      by intros [_ (? & ? & _ & ? & _)]. }
    rewrite shouldIgnore_listed. split.
    + intros Hlisted. split; [done|]. by exists L, D.
    + by intros [_ (? & ? & [= <-] & [= <-] & ?)].
  - split; [done|]. by intros [_ (? & ? & _ & _ & ? & ? & ? & _)].
Qed.

Lemma left_out_longer ignore ignore' file :
  (forall L D, listed ignore L D -> listed ignore' L D) ->
  left_out ignore file = true -> left_out ignore' file = true.
Proof.
  intros Hlonger [Hroot (L & D & HL & HD & Hlisted)]%left_out_iff.
  apply left_out_iff. split; [done|]. exists L, D. auto.
Qed.

Lemma root_match_stored ignore globalTranslationsKey file :
  RegExp.matches RegExp.root_file file = true ->
  left_out ignore file = false /\
  exists locale, catalogue_key globalTranslationsKey file
                 = locale +:+ "." +:+ globalTranslationsKey.
Proof.
  intros Hmatch. unfold left_out, catalogue_key. unfold RegExp.matches in Hmatch.
  destruct (RegExp.exec RegExp.root_file file) as [found|] eqn:Hexec; [|done].
  change (default [] (Some found)) with found.
  rewrite (root_match_truthy file found Hexec). split; [done|]. by eexists.
Qed.

Lemma root_miss_exec file :
  RegExp.matches RegExp.root_file file = false ->
  RegExp.exec RegExp.root_file file = None.
Proof. unfold RegExp.matches. by destruct (RegExp.exec _ _). Qed.

Lemma catalogue_key_dotted globalTranslationsKey file :
  exists a b, catalogue_key globalTranslationsKey file = a +:+ "." +:+ b.
Proof. unfold catalogue_key. destruct (JS.truthy _); by eexists _, _. Qed.

(** Looking a key up in the catalogue under construction. *)
Lemma fold_lookup_none ignore globalTranslationsKey files k l :
  foldl (importFile ignore globalTranslationsKey files) ∅ l !! k = None <->
  Forall (fun f => stored_under ignore globalTranslationsKey f <> Some k) l.
Proof.
  destruct (last_stored ignore globalTranslationsKey k l)
    as [Hnone|(before & f & after & -> & Hf & Hafter)].
  - by rewrite fold_untouched.
  - rewrite (fold_last _ _ _ _ f) by done. split; [done|].
    intros Hall. apply Forall_app in Hall as [_ Hall].
    apply Forall_cons in Hall as [Hne _]. by destruct Hne.
Qed.

Lemma fold_lookup_some ignore globalTranslationsKey files k l v :
  foldl (importFile ignore globalTranslationsKey files) ∅ l !! k = Some v ->
  exists before f after,
    l = before ++ f :: after /\
    stored_under ignore globalTranslationsKey f = Some k /\
    Forall (fun f' => stored_under ignore globalTranslationsKey f' <> Some k) after /\
    v = resolve files f.
Proof.
  destruct (last_stored ignore globalTranslationsKey k l)
    as [Hnone|(before & f & after & -> & Hf & Hafter)].
  - by rewrite fold_untouched.
  - rewrite (fold_last _ _ _ _ f) by done. intros [= <-].
    by exists before, f, after.
Qed.

Lemma NoDup_map_filter {A B} (f : A -> B) (p : A -> bool) (l : list A) :
  NoDup (List.map f l) -> NoDup (List.map f (List.filter p l)).
Proof.
  induction l as [|a l IH]; [done|].
  simpl. rewrite NoDup_cons. intros [Ha Hl]. destruct (p a); [|by apply IH].
  simpl. apply NoDup_cons. split; [|by apply IH].
  rewrite list_elem_of_In, in_map_iff in Ha |- *.
  intros (x & Hx & [Hin _]%filter_In). apply Ha. by exists x.
Qed.

Lemma fold_size globalTranslationsKey files l : forall catalogue,
  NoDup (List.map (catalogue_key globalTranslationsKey) l) ->
  Forall (fun f => catalogue !! catalogue_key globalTranslationsKey f = None) l ->
  size (foldl (importFile None globalTranslationsKey files) catalogue l)
  = size catalogue + List.length l.
Proof.
  induction l as [|f l IH]; intros catalogue Hkeys Hfresh; simpl; [lia|].
  apply NoDup_cons in Hkeys as [Hf Hkeys]. apply Forall_cons in Hfresh as [Hnew Hfresh].
  rewrite importFile_stored, stored_under_unfiltered, IH; [|done|].
  - rewrite map_size_insert_None by done. lia.
  - apply Forall_forall. intros f' Hf'. rewrite lookup_insert_ne.
    + by eapply Forall_forall in Hfresh.
    + intros Heq. apply Hf. rewrite Heq. apply list_elem_of_In, in_map.
      by apply list_elem_of_In.
Qed.

Lemma substr_suffix s n : exists cut, s = cut +:+ JS.substr s n.
Proof.
  revert s. induction n as [|n IH]; intros s; [by exists ""|].
  destruct s as [|c s]; [by exists ""|].
  destruct (IH s) as (cut & Hcut). exists (String c cut).
  rewrite app_cons. simpl. by rewrite <- Hcut.
Qed.

Lemma dotless_app s t : dotless (s +:+ t) = dotless s && dotless t.
Proof. apply all_chars_app. Qed.

Lemma qualified_has_dot key : qualified_shape key -> dotless key = false.
Proof.
  intros (segments & Hlen & _ & ->).
  destruct segments as [|w [|w' ws]]; [simpl in Hlen; lia..|].
  rewrite concat_dotted, dotless_app, dotted_cons. simpl.
  apply andb_false_r.
Qed.

(** ** Further properties of discovery and filtering *)

(** X1: the files [importTranslations] iterates over are the files below
    the alias whose path ends in [.php] or [.json], and no others. *)
Theorem discovery_keeps_php_and_json_files {Translator Args}
    (h : Host Translator Args) file :
  In file (enumerated h) <->
  In file (lang_paths h) /\
  exists stem ext, extension ext /\ file = stem +:+ "." +:+ ext.
Proof.
  unfold enumerated, lang_context, require_context. cbn [fst keys].
  by rewrite filter_In, matches_lang_file.
Qed.

(** X2: [shouldIgnore] answers true exactly when the locale and the domain
    are strings and some entry of that locale lists that domain; an
    undefined locale or domain is never ignored. *)
Theorem shouldIgnore_exactly_listed entries locale domain :
  shouldIgnore entries locale domain = true <->
  exists L D, locale = JS.Str L /\ domain = JS.Str D /\ listed (Some entries) L D.
Proof.
  destruct locale as [|L].
  { rewrite shouldIgnore_undefined. split; [done|]. by intros (? & ? & ? & _). }
  destruct domain as [|D].
  { rewrite shouldIgnore_undefined_domain. split; [done|]. by intros (? & ? & _ & ? & _). }
  rewrite shouldIgnore_listed. split.
  - intros Hlisted. by exists L, D.
  - by intros (? & ? & [= <-] & [= <-] & ?).
Qed.

(** X3: the root pattern takes a scoped file [./L/D.<ext>] for a root-level
    file exactly when [D] begins with [php] or [json], or [L] holds [php] or
    [json] from its third character on.  Such a file is stored under a global
    key and no ignore list can leave it out. *)
Theorem scoped_file_misfiled_exactly ignore globalTranslationsKey L D ext :
  name L = true -> name D = true -> extension ext ->
  RegExp.matches RegExp.root_file (scoped_path L D ext)
  = begins_with_extension D || extension_inside L /\
  (begins_with_extension D || extension_inside L = true ->
   left_out ignore (scoped_path L D ext) = false /\
   exists locale, catalogue_key globalTranslationsKey (scoped_path L D ext)
                  = locale +:+ "." +:+ globalTranslationsKey).
Proof.
  intros HL HD Hext. split; [by apply matches_root_scoped|].
  intros Hmisfiled. apply root_match_stored.
  by rewrite matches_root_scoped.
Qed.

Lemma scoped_file_misfiled_exactly_witness :
  RegExp.matches RegExp.root_file (scoped_path "my-json" "auth" "php") = true /\
  left_out (Some [("my-json", ["auth"])]) (scoped_path "my-json" "auth" "php") = false.
Proof.
  destruct (scoped_file_misfiled_exactly (Some [("my-json", ["auth"])]) "__global__"
              "my-json" "auth" "php" eq_refl eq_refl (or_introl eq_refl))
    as [Hmatch Hstored].
  split; [exact Hmatch|]. exact (proj1 (Hstored eq_refl)).
Defined.

(** X4: a scoped file [./L/D.<ext>] that is not misfiled is left out exactly
    when the ignore list names [(L, D)]; otherwise it is assigned under
    [L.D].  The catalogue maps [L.D] to its content when it is not listed and
    no later file is stored under [L.D], and has no key [L.D] when it is
    listed and no other file is stored under [L.D]. *)
Theorem scoped_file_filtered_when_not_misfiled {Translator Args}
    ignore globalTranslationsKey (h : Host Translator Args) L D ext before after :
  name L = true -> name D = true -> extension ext ->
  begins_with_extension D || extension_inside L = false ->
  enumerated h = before ++ scoped_path L D ext :: after ->
  let path := scoped_path L D ext in
  let key := L +:+ "." +:+ D in
  let catalogue := (importTranslations ignore globalTranslationsKey h).1 in
  (left_out ignore path = true <-> listed ignore L D) /\
  (forall files earlier,
     listed ignore L D ->
     importFile ignore globalTranslationsKey files earlier path = earlier) /\
  (forall files earlier,
     ~ listed ignore L D ->
     importFile ignore globalTranslationsKey files earlier path
     = <[key := resolve files path]> earlier) /\
  (~ listed ignore L D ->
   Forall (fun f => stored_under ignore globalTranslationsKey f <> Some key) after ->
   catalogue !! key = Some (lang_module h path)) /\
  (listed ignore L D ->
   Forall (fun f => stored_under ignore globalTranslationsKey f <> Some key)
          (before ++ after) ->
   catalogue !! key = None).
Proof.
  intros HL HD Hext Hfine Hfiles path key catalogue.
  assert (RegExp.exec RegExp.root_file path = None) as Hroot.
  { apply root_miss_exec. unfold path. by rewrite matches_root_scoped. }
  destruct (scoped_path_classified ignore globalTranslationsKey L D ext HL HD Hext Hroot)
    as [Hkey Hout].
  fold path in Hkey, Hout. fold (listed ignore L D) in Hout.
  assert (listed ignore L D -> stored_under ignore globalTranslationsKey path = None) as Hno.
  { intros Hlisted%Hout. unfold stored_under. by rewrite Hlisted. }
  assert (~ listed ignore L D ->
          stored_under ignore globalTranslationsKey path = Some key) as Hyes.
  { intros Hfree. unfold stored_under.
    destruct (left_out ignore path) eqn:Hleft; [destruct Hfree; by apply Hout|].
    by rewrite Hkey. }
  split; [done|]. split; [|split; [|split]].
  - intros files earlier Hlisted. by rewrite importFile_stored, Hno.
  - intros files earlier Hfree. by rewrite importFile_stored, Hyes.
  - intros Hfree Hafter. unfold catalogue.
    rewrite importTranslations_catalogue, Hfiles.
    by rewrite (fold_last _ _ _ _ path); [| apply Hyes |].
  - intros Hlisted Hothers. unfold catalogue.
    rewrite importTranslations_catalogue, Hfiles. apply fold_lookup_none.
    apply Forall_app in Hothers as [Hbefore Hafter].
    apply Forall_app. split; [done|]. apply Forall_cons. split; [|done].
    pose proof (Hno Hlisted) as Hnone. unfold path in Hnone. by rewrite Hnone.
Qed.

Lemma scoped_file_filtered_when_not_misfiled_witness :
  (importTranslations (Some [("fr", ["validation"])]) "__global__"
     (page ["./fr.json"; "./fr/auth.php"; "./fr/validation.php"] module_of)).1 !! "fr.auth"
  = Some (module_of "./fr/auth.php").
Proof.
  refine (proj1 (proj2 (proj2 (proj2 (scoped_file_filtered_when_not_misfiled
    (Some [("fr", ["validation"])]) "__global__"
    (page ["./fr.json"; "./fr/auth.php"; "./fr/validation.php"] module_of)
    "fr" "auth" "php" ["./fr.json"] ["./fr/validation.php"] _ _ _ _ _)))) _ _).
  - reflexivity.
  - reflexivity.
  - left. reflexivity.
  - reflexivity.
  - reflexivity.
  - intros (entries & domains & Hentries & Hin & HD).
    injection Hentries as <-. destruct Hin as [Heq|[]].
    injection Heq as <-. destruct HD as [HD|[]]. discriminate HD.
  - repeat constructor. vm_compute. discriminate.
Defined.

(** ** Further properties of the catalogue *)

(** X5: the catalogue holds nothing of its own making.  A key is absent
    exactly when no enumerated file is stored under it; a key that is present
    has a dot in it and maps to the module of an enumerated file stored under
    it. *)
Theorem catalogue_entries_come_from_files {Translator Args}
    ignore globalTranslationsKey (h : Host Translator Args) k :
  let catalogue := (importTranslations ignore globalTranslationsKey h).1 in
  (catalogue !! k = None <->
   Forall (fun f => stored_under ignore globalTranslationsKey f <> Some k) (enumerated h)) /\
  (forall v, catalogue !! k = Some v ->
     exists f, In f (enumerated h) /\
               stored_under ignore globalTranslationsKey f = Some k /\
               v = lang_module h f /\
               exists a b, k = a +:+ "." +:+ b).
Proof.
  intros catalogue. unfold catalogue. rewrite importTranslations_catalogue. split.
  - apply fold_lookup_none.
  - intros v (before & f & after & Hfiles & Hf & _ & ->)%fold_lookup_some.
    exists f. split; [rewrite Hfiles; apply in_or_app; right; by left|].
    split; [done|]. split; [done|].
    apply stored_under_filtered in Hf as [_ <-]. apply catalogue_key_dotted.
Qed.

(** X6: when no two enumerated files share a key, every file that is not
    left out is found again under its key with its own content, and the
    catalogue has one entry for each such file. *)
Theorem unique_keys_round_trip {Translator Args}
    ignore globalTranslationsKey (h : Host Translator Args) :
  NoDup (List.map (catalogue_key globalTranslationsKey) (enumerated h)) ->
  let catalogue := (importTranslations ignore globalTranslationsKey h).1 in
  (forall f, In f (enumerated h) -> left_out ignore f = false ->
     catalogue !! catalogue_key globalTranslationsKey f = Some (lang_module h f)) /\
  size catalogue
  = List.length (List.filter (fun f => negb (left_out ignore f)) (enumerated h)).
Proof.
  intros Hunique catalogue. unfold catalogue. rewrite importTranslations_catalogue. split.
  - intros f Hf Hkept.
    assert (stored_under ignore globalTranslationsKey f
            = Some (catalogue_key globalTranslationsKey f)) as Hstored.
    { unfold stored_under. by rewrite Hkept. }
    destruct (foldl _ _ _ !! _) as [v|] eqn:Hlookup.
    + apply fold_lookup_some in Hlookup as (before & f' & after & Hfiles & Hf' & _ & ->).
      apply stored_under_filtered in Hf' as [_ Hkey]. f_equal. cbn [resolve]. f_equal.
      eapply NoDup_map_inj; [exact Hunique| |done|done].
      rewrite Hfiles. apply in_or_app. right. by left.
    + apply fold_lookup_none in Hlookup.
      apply Forall_forall with (x := f) in Hlookup; [done|by apply list_elem_of_In].
  - rewrite fold_without_left_out, fold_size.
    + by rewrite map_size_empty.
    + by apply NoDup_map_filter.
    + apply Forall_forall. intros f _. apply lookup_empty.
Qed.

Lemma unique_keys_round_trip_witness :
  size (importTranslations (Some [("fr", ["auth"])]) "__global__"
          (page ["./fr.json"; "./fr/auth.php"; "./en/auth.php"] module_of)).1 = 2.
Proof.
  refine (proj2 (unique_keys_round_trip (Some [("fr", ["auth"])]) "__global__"
    (page ["./fr.json"; "./fr/auth.php"; "./en/auth.php"] module_of) _)).
  apply NoDup_ListNoDup. repeat constructor; vm_compute; intuition discriminate.
Defined.

(** X7: when no two enumerated files share a key, the order in which the
    bundler enumerates the files does not matter. *)
Theorem enumeration_order_immaterial {Translator Args}
    ignore globalTranslationsKey (h h' : Host Translator Args) :
  lang_module h = lang_module h' ->
  Permutation (enumerated h) (enumerated h') ->
  NoDup (List.map (catalogue_key globalTranslationsKey) (enumerated h)) ->
  (importTranslations ignore globalTranslationsKey h).1
  = (importTranslations ignore globalTranslationsKey h').1.
Proof.
  intros Hmodule Horder Hunique. rewrite !importTranslations_catalogue.
  apply map_eq. intros k.
  destruct (foldl _ _ (enumerated h) !! k) as [v|] eqn:Hleft.
  - apply fold_lookup_some in Hleft as (before & f & after & Hfiles & Hf & _ & ->).
    assert (In f (enumerated h)) as Hin.
    { rewrite Hfiles. apply in_or_app. right. by left. }
    destruct (foldl _ _ (enumerated h') !! k) as [v'|] eqn:Hright.
    + apply fold_lookup_some in Hright as (before' & f' & after' & Hfiles' & Hf' & _ & ->).
      assert (In f' (enumerated h)) as Hin'.
      { apply (Permutation_in _ (Permutation_sym Horder)).
        rewrite Hfiles'. apply in_or_app. right. by left. }
      apply stored_under_filtered in Hf as [_ Hkey].
      apply stored_under_filtered in Hf' as [_ Hkey'].
      assert (f = f') as <-
        by (eapply NoDup_map_inj; [exact Hunique|done|done|congruence]).
      cbn [resolve]. by rewrite Hmodule.
    + apply fold_lookup_none in Hright.
      apply Forall_forall with (x := f) in Hright; [done|].
      apply list_elem_of_In. by apply (Permutation_in _ Horder).
  - apply fold_lookup_none in Hleft. symmetry. apply fold_lookup_none.
    apply Forall_forall. intros f Hf.
    apply Forall_forall with (x := f) in Hleft; [done|].
    apply list_elem_of_In, (Permutation_in _ (Permutation_sym Horder)).
    by apply list_elem_of_In.
Qed.

Lemma enumeration_order_immaterial_witness :
  (importTranslations (Some [("fr", ["auth"])]) "__global__"
     (page ["./fr.json"; "./fr/auth.php"; "./en/auth.php"] module_of)).1
  = (importTranslations (Some [("fr", ["auth"])]) "__global__"
       (page ["./en/auth.php"; "./fr.json"; "./fr/auth.php"] module_of)).1.
Proof.
  refine (enumeration_order_immaterial (Some [("fr", ["auth"])]) "__global__"
    (page ["./fr.json"; "./fr/auth.php"; "./en/auth.php"] module_of)
    (page ["./en/auth.php"; "./fr.json"; "./fr/auth.php"] module_of) eq_refl _ _).
  - change (Permutation (["./fr.json"; "./fr/auth.php"] ++ ["./en/auth.php"])
                        (["./en/auth.php"] ++ ["./fr.json"; "./fr/auth.php"])).
    apply Permutation_app_comm.
  - apply NoDup_ListNoDup. repeat constructor; vm_compute; intuition discriminate.
Defined.

(** X8: an ignore list that names at least the pairs another one names
    gives a catalogue with no key the other catalogue lacks; in particular an
    ignore list never adds a key. *)
Theorem longer_ignore_list_adds_no_key {Translator Args}
    ignore ignore' globalTranslationsKey (h : Host Translator Args) k :
  (forall L D, listed ignore L D -> listed ignore' L D) ->
  is_Some ((importTranslations ignore' globalTranslationsKey h).1 !! k) ->
  is_Some ((importTranslations ignore globalTranslationsKey h).1 !! k).
Proof.
  intros Hlonger [v Hv]. rewrite importTranslations_catalogue in Hv |- *.
  apply fold_lookup_some in Hv as (before & f & after & Hfiles & Hf & _ & _).
  apply stored_under_filtered in Hf as [Hkept Hkey].
  apply not_eq_None_Some. rewrite fold_lookup_none, Hfiles.
  intros Hnone. apply Forall_app in Hnone as [_ Hnone].
  apply Forall_cons in Hnone as [Hne _]. apply Hne.
  unfold stored_under. destruct (left_out ignore f) eqn:Hout; [|by rewrite Hkey].
  apply (left_out_longer _ ignore') in Hout; [congruence|done].
Qed.

Lemma longer_ignore_list_adds_no_key_witness :
  is_Some ((importTranslations (Some [("fr", ["auth"])]) "__global__"
              (page ["./fr.json"; "./fr/auth.php"; "./en/auth.php"] module_of)).1
             !! "en.auth").
Proof.
  refine (longer_ignore_list_adds_no_key
    (Some [("fr", ["auth"])]) (Some [("fr", ["auth"]); ("de", ["auth"])]) "__global__"
    (page ["./fr.json"; "./fr/auth.php"; "./en/auth.php"] module_of) "en.auth" _ _).
  - intros L D (entries & domains & Hentries & Hin & HD). injection Hentries as <-.
    exists [("fr", ["auth"]); ("de", ["auth"])], domains.
    split; [done|]. split; [|done]. destruct Hin as [<-|[]]. by left.
  - by eexists.
Defined.

(** X9: an ignore list whose locales list no domains, the empty list among
    them, leaves out nothing: the catalogue is the one built without a
    list. *)
Theorem ignore_list_without_domains_ignores_nothing {Translator Args}
    entries globalTranslationsKey (h : Host Translator Args) :
  Forall (fun entry => snd entry = []) entries ->
  (importTranslations (Some entries) globalTranslationsKey h).1
  = (importTranslations None globalTranslationsKey h).1.
Proof.
  intros Hempty. rewrite !importTranslations_catalogue, fold_without_left_out.
  f_equal. apply forallb_filter_id, forallb_forall. intros f _.
  apply negb_true_iff, not_true_is_false.
  intros (_ & L & D & _ & _ & entries' & domains & [= <-] & Hin & HD)%left_out_iff.
  apply list_elem_of_In in Hin.
  apply Forall_forall with (x := (L, domains)) in Hempty; [|done].
  simpl in Hempty. by subst domains.
Qed.

Lemma ignore_list_without_domains_ignores_nothing_witness :
  (importTranslations (Some [("fr", [])]) "__global__"
     (page ["./fr.json"; "./fr/auth.php"] module_of)).1
  = (importTranslations None "__global__"
       (page ["./fr.json"; "./fr/auth.php"] module_of)).1.
Proof.
  refine (ignore_list_without_domains_ignores_nothing [("fr", [])] "__global__"
    (page ["./fr.json"; "./fr/auth.php"] module_of) _).
  by repeat constructor.
Defined.

(** X10: a file that neither pattern matches is assigned under
    [undefined.undefined] whatever the ignore list; the catalogue maps that
    key to its content unless a later file is stored under the same key, as a
    second unmatched file would be. *)
Theorem unmatched_files_share_one_key {Translator Args}
    ignore globalTranslationsKey (h : Host Translator Args) file before after :
  RegExp.exec RegExp.root_file file = None ->
  RegExp.exec RegExp.scoped_file file = None ->
  enumerated h = before ++ file :: after ->
  (forall files earlier,
     importFile ignore globalTranslationsKey files earlier file
     = <["undefined.undefined" := resolve files file]> earlier) /\
  (Forall (fun f => stored_under ignore globalTranslationsKey f
                    <> Some "undefined.undefined") after ->
   (importTranslations ignore globalTranslationsKey h).1 !! "undefined.undefined"
   = Some (lang_module h file)) /\
  (forall f, In f after ->
     RegExp.exec RegExp.root_file f = None -> RegExp.exec RegExp.scoped_file f = None ->
     exists later, In later after /\
       (importTranslations ignore globalTranslationsKey h).1 !! "undefined.undefined"
       = Some (lang_module h later)).
Proof.
  intros Hroot Hscoped Hfiles.
  pose proof (unmatched_file_stored ignore globalTranslationsKey file Hroot Hscoped)
    as Hstored.
  split; [|split].
  - intros files earlier. by rewrite importFile_stored, Hstored.
  - intros Hafter. rewrite importTranslations_catalogue, Hfiles.
    by rewrite (fold_last _ _ _ _ file).
  - intros f Hf Hroot' Hscoped'.
    pose proof (unmatched_file_stored ignore globalTranslationsKey f Hroot' Hscoped')
      as Hstored'.
    rewrite importTranslations_catalogue, Hfiles.
    destruct (last_stored ignore globalTranslationsKey "undefined.undefined" after)
      as [Hnone|(mid & later & rest & -> & Hlater & Hrest)].
    + apply list_elem_of_In in Hf.
      by apply Forall_forall with (x := f) in Hnone.
    + replace (before ++ file :: mid ++ later :: rest)
        with ((before ++ file :: mid) ++ later :: rest) by (by rewrite <- app_assoc).
      rewrite (fold_last _ _ _ _ later) by done.
      exists later. split; [|done]. apply in_or_app. right. by left.
Qed.

Lemma unmatched_files_share_one_key_witness :
  (importTranslations (Some [("en", ["notifications"])]) "__global__"
     (page ["./vendor/backup/en/notifications.php"; "./vendor/mail/en/notifications.php"]
           module_of)).1 !! "undefined.undefined"
  = Some (module_of "./vendor/mail/en/notifications.php").
Proof.
  destruct (unmatched_files_share_one_key (Some [("en", ["notifications"])]) "__global__"
    (page ["./vendor/backup/en/notifications.php"; "./vendor/mail/en/notifications.php"]
          module_of)
    "./vendor/mail/en/notifications.php" ["./vendor/backup/en/notifications.php"] []
    eq_refl eq_refl eq_refl) as (_ & Hlast & _).
  apply Hlast. constructor.
Defined.

(** ** Further properties of the translation helper *)



(** X12: for a bare key [__] only ever cuts a prefix off what the
    translator returned, and returns it whole when it does not start with
    the global key. *)
Theorem bare_key_result_is_a_suffix {Translator Args}
    (get : Translator -> string -> Args -> string) i18n globalTranslationsKey key args :
  ~ qualified_shape key ->
  let result := get i18n (globalTranslationsKey +:+ "." +:+ key) args in
  (exists cut, result = cut +:+ __ get i18n globalTranslationsKey key args) /\
  (JS.startsWith result globalTranslationsKey = false ->
   __ get i18n globalTranslationsKey key args = result).
Proof.
  intros Hkey result. unfold __. rewrite not_qualified_matches by done. fold result.
  destruct (JS.startsWith result globalTranslationsKey).
  - split; [apply substr_suffix|done].
  - split; [by exists ""|done].
Qed.

Lemma bare_key_result_is_a_suffix_witness :
  __ (table_get [("__global__.greeting", "Hello")]) tt "__global__" "greeting" tt = "Hello".
Proof.
  refine (proj2 (bare_key_result_is_a_suffix
    (table_get [("__global__.greeting", "Hello")]) tt "__global__" "greeting" tt _) _).
  - intros H%matches_qualified_key. vm_compute in H. discriminate.
  - reflexivity.
Defined.

(** X13: a key without a dot is never taken for a qualified key: it is
    always looked up inside the global domain. *)
Theorem dotless_key_is_global {Translator Args}
    (get : Translator -> string -> Args -> string) i18n globalTranslationsKey key args :
  dotless key = true ->
  RegExp.matches RegExp.qualified_key key = false /\
  __ get i18n globalTranslationsKey key args
  = (let result := get i18n (globalTranslationsKey +:+ "." +:+ key) args in
     if JS.startsWith result globalTranslationsKey
     then JS.substr result (String.length globalTranslationsKey + 1)
     else result).
Proof.
  intros Hkey.
  assert (~ qualified_shape key) as Hbare.
  { intros Hshape%qualified_has_dot. congruence. }
  unfold __. by rewrite not_qualified_matches.
Qed.

Lemma dotless_key_is_global_witness :
  __ (table_get [("__global__.Save", "Enregistrer")]) tt "__global__" "Save" tt
  = "Enregistrer".
Proof.
  refine (eq_trans (proj2 (dotless_key_is_global
    (table_get [("__global__.Save", "Enregistrer")]) tt "__global__" "Save" tt _)) _);
    reflexivity.
Defined.

(** ** Further properties of installation *)

(** X14: the function [install] registers as [__] throws exactly when the
    options carry [globalTranslationsKey] with the value [undefined] or
    [null], the key is not a qualified key, and what the translator returns
    for [undefined.<key>] (or [null.<key>]) begins with that word.  With the
    property missing or a string it never throws. *)
Theorem installed_helper_throws_exactly {Translator Args}
    (Translator_new : Options -> Translator)
    (get : Translator -> string -> Args -> string)
    options (h : Host Translator Args) :
  exists passed helper,
    let i18n := Translator_new passed in
    let word := JS.template_property (globalTranslationsKey options) in
    (exists earlier,
       effects (install Translator_new get options h)
       = earlier ++ [NewTranslator passed; VueMixin i18n helper]) /\
    forall key args,
      (exists e, helper key args = JS.Throw e) <->
      (globalTranslationsKey options = JS.UndefinedValue \/
       globalTranslationsKey options = JS.NullValue) /\
      ~ qualified_shape key /\
      JS.startsWith (get i18n (word +:+ "." +:+ key) args) word = true.
Proof.
  pose (key := spread_over "__global__" (globalTranslationsKey options)).
  pose (passed discovered :=
    {| fallback := spread_over (or_else (document_lang h) (navigator_language h))
                               (fallback options);
       messages := spread_over discovered (messages options);
       ignore := ignore options;
       globalTranslationsKey := key;
       locale := locale options |}).
  assert (exists discovered earlier,
            effects (install Translator_new get options h)
            = earlier ++ [NewTranslator (passed discovered);
                          VueMixin (Translator_new (passed discovered))
                            (__installed get (Translator_new (passed discovered)) key)])
    as (discovered & earlier & Heffects).
  { unfold install. fold key.
    destruct (messages options) as [| | |supplied] eqn:Hmessages.
    1-3: exists (importTranslations (JS.defined (ignore options))
                   (JS.template_property key) h).1,
                (effects h ++ [RequireContext "@lang" true RegExp.lang_file]);
      unfold passed; rewrite ?Hmessages;
      unfold importTranslations, require_context;
      cbn [perform effects]; by rewrite <- !app_assoc.
    exists supplied, (effects h). unfold passed. rewrite ?Hmessages.
    cbn [perform effects]. by rewrite <- app_assoc. }
  exists (passed discovered),
         (__installed get (Translator_new (passed discovered)) key).
  cbn zeta. split; [by exists earlier|].
  intros k args. unfold key.
  destruct (globalTranslationsKey options) as [| | |g] eqn:Hkey;
    cbn [spread_over JS.template_property].
  - rewrite __installed_string. split; [by intros [e He]|]. by intros [[?|?] _].
  - unfold __installed. cbn [JS.template_property].
    destruct (RegExp.matches RegExp.qualified_key k) eqn:Hmatch.
    + split; [by intros [e He]|].
      intros (_ & Hbare & _). by apply matches_qualified_key in Hmatch.
    + assert (~ qualified_shape k) as Hbare.
      { intros Hshape%matches_qualified_key. congruence. }
      destruct (JS.startsWith _ _).
      * split; [intros _; split; [by left|done]|intros _; by exists JS.TypeError].
      * split; [by intros [e He]|by intros (_ & _ & ?)].
  - unfold __installed. cbn [JS.template_property].
    destruct (RegExp.matches RegExp.qualified_key k) eqn:Hmatch.
    + split; [by intros [e He]|].
      intros (_ & Hbare & _). by apply matches_qualified_key in Hmatch.
    + assert (~ qualified_shape k) as Hbare.
      { intros Hshape%matches_qualified_key. congruence. }
      destruct (JS.startsWith _ _).
      * split; [intros _; split; [by right|done]|intros _; by exists JS.TypeError].
      * split; [by intros [e He]|by intros (_ & _ & ?)].
  - rewrite __installed_string. split; [by intros [e He]|]. by intros [[?|?] _].
Qed.
